(** * objtrack.c: the allocation tracker of the libuast JNI bridge

    A shallow embedding of [objtrack.c] and the properties of its two
    entry points, [trackObject] and [freeObjects].

    The C file keeps one static pointer [_allocVector] to a heap-allocated
    [AllocVector] struct, which in turn owns a heap-allocated array of
    [jobject*] slots.  The embedding follows the ownership structure: the
    static pointer is an [option] (None is NULL), the struct is a record, the
    array is a list of slots.  Calls to the C allocator ([malloc], [realloc],
    [free]) are recorded in a log, which is what an instrumented allocator
    would observe.  Whether the allocator grants a request is not decided by
    the program: it is a parameter [grant] of the model.  The tracked
    objects themselves live outside the file: a call [free(p)] on a handle is
    recorded, what it does to the block behind [p] is the C library's part.

    Integer widths follow the LP64 data model: [size_t] is 64 bits and wraps
    around, [int] is 32 bits and its overflow is undefined, a pointer takes
    8 bytes. *)

From Stdlib Require Import ZArith Lia.
From stdpp Require Import base list.

Local Open Scope Z_scope.

(** ** Machine integers and sizes *)

Definition SIZE_MODULUS : Z := 2 ^ 64.
Definition INT_MAX : Z := 2 ^ 31 - 1.

(** Conversion to [size_t]: arithmetic on [size_t] is modulo [2^64]. *)
Definition size_t (z : Z) : Z := z mod SIZE_MODULUS.

(** The size of a [jobject] pointer, and [sizeof(AllocVector)]: one
    pointer and two [size_t] fields. *)
Definition sizeof_ptr : Z := 8.
Definition sizeof_AllocVector : Z := 24.

(** A [jobject*] is an address; the tracker never looks behind it. *)
Definition NULL : Z := 0.

(** ** Outcomes

    A C function either runs to completion or leaves defined behaviour
    (null dereference, access outside an array, read of an indeterminate
    value, signed overflow). *)

Inductive outcome (A : Type) : Type :=
| Done (a : A)
| Undefined.
Arguments Done {A} a.
Arguments Undefined {A}.

(** Sequencing: what follows undefined behaviour is undefined. *)
#[global] Instance outcome_bind : MBind outcome := fun A B k o =>
  match o with
  | Done a => k a
  | Undefined => Undefined
  end.

(** ** Data model *)

(** Calls to the C allocator, in program order. *)
Inductive event : Type :=
| Malloc (bytes : Z) (granted : bool)   (* malloc(bytes) *)
| Realloc (bytes : Z) (granted : bool)  (* realloc(_allocVector->vector, bytes) *)
| Free_slot (p : Z)                     (* free(_allocVector->vector[i]), the slot holding p *)
| Free_vector                           (* free(_allocVector->vector) *)
| Free_struct.                          (* free(_allocVector) *)

(** A slot of the array: [None] is an indeterminate value (memory fresh
    from [malloc] or [realloc]), [Some p] holds the pointer [p]. *)
Abbreviation slot := (option Z).

(** [typedef struct { jobject **vector; size_t used; size_t size; } AllocVector;]
    The field [vector] is [None] for a NULL pointer and [Some l] for a
    pointer to a live array with contents [l]. *)
Record AllocVector : Type := mkAllocVector {
  vector : option (list slot);
  used : Z;
  size : Z
}.

(** The program state: the static [_allocVector] and the allocator log. *)
Record World : Type := mkWorld {
  _allocVector : option AllocVector;
  log : list event
}.

(** The state at program start: [static AllocVector *_allocVector = NULL]. *)
Definition start : World := {| _allocVector := None; log := [] |}.

(** ** The allocator *)

(** An array of [bytes] bytes has room for one slot per [sizeof_ptr] bytes. *)
Definition slots_of (bytes : Z) : nat := Z.to_nat (bytes / sizeof_ptr).

(** [malloc(bytes)] for an array: fresh indeterminate slots, or NULL. *)
Definition malloc_array (bytes : Z) (granted : bool) : option (list slot) :=
  if granted then Some (replicate (slots_of bytes) None) else None.

(** [realloc(v, bytes)]: the old contents up to the smaller of the two
    sizes, the rest indeterminate; NULL when refused (the old block stays
    allocated, and is lost to the caller who overwrites its only pointer).
    [realloc(NULL, bytes)] is [malloc(bytes)]. *)
Definition realloc_array (v : option (list slot)) (bytes : Z) (granted : bool)
  : option (list slot) :=
  if granted then Some (resize (slots_of bytes) None (default [] v)) else None.

Section Allocator.

(** [grant history bytes]: does the allocator grant a request for [bytes]
    bytes after the calls in [history]? *)
Variable grant : list event -> Z -> bool.

(** ** initAllocVector *)

Definition initialSize : Z := 128.

Definition initAllocVector (w : World) : outcome World :=
  (* _allocVector = malloc(sizeof(AllocVector)); *)
  let got_struct := grant (log w) sizeof_AllocVector in
  let log1 := log w ++ [Malloc sizeof_AllocVector got_struct] in
  (* the right-hand side malloc(initialSize * sizeof(jobject * )) *)
  let bytes := size_t (initialSize * sizeof_ptr) in
  let got_vector := grant log1 bytes in
  let log2 := log1 ++ [Malloc bytes got_vector] in
  (* _allocVector->vector = ...; _allocVector->used = 0; _allocVector->size = initialSize;
     each of them a store through _allocVector *)
  if got_struct then
    Done {| _allocVector := Some {| vector := malloc_array bytes got_vector;
                                    used := 0;
                                    size := size_t initialSize |};
            log := log2 |}
  else Undefined.

(** ** trackObject *)

(** [_allocVector == NULL || _allocVector->vector == NULL] *)
Definition needs_init (w : World) : bool :=
  match _allocVector w with
  | None => true
  | Some av => match vector av with None => true | Some _ => false end
  end.

(** The growth step: [if (used == size) { size *= 2; vector = realloc(vector, size * sizeof_ptr); }] *)
Definition grow (w : World) : outcome World :=
  match _allocVector w with
  | None => Undefined
  | Some av =>
      if used av =? size av then
        let size' := size_t (size av * 2) in
        let bytes := size_t (size' * sizeof_ptr) in
        let granted := grant (log w) bytes in
        Done {| _allocVector := Some {| vector := realloc_array (vector av) bytes granted;
                                        used := used av;
                                        size := size' |};
                log := log w ++ [Realloc bytes granted] |}
      else Done w
  end.

(** The store: [_allocVector->vector[_allocVector->used++] = obj;] *)
Definition append (obj : Z) (w : World) : outcome World :=
  match _allocVector w with
  | None => Undefined
  | Some av =>
      match vector av with
      | None => Undefined
      | Some l =>
          if (Z.to_nat (used av) <? length l)%nat then
            Done {| _allocVector := Some {| vector := Some (<[Z.to_nat (used av) := Some obj]> l);
                                            used := size_t (used av + 1);
                                            size := size av |};
                    log := log w |}
          else Undefined
      end
  end.

Definition trackObject (obj : Z) (w : World) : outcome World :=
  w1 ← (if needs_init w then initAllocVector w else Done w);
  w2 ← grow w1;
  append obj w2.

End Allocator.

(** ** freeObjects *)

(** One pass of the loop body at index [i]:
    [free(_allocVector->vector[i]); _allocVector->vector[i] = NULL;]
    The call of [free] is recorded.  Whether the pointer may be freed (a
    live heap block, not freed before) is the caller's side of the
    contract and is not decided here: where a lemma below shows the loop
    completing, that is under this contract.  The properties of the
    tracker are stated for loops that complete, or show where the loop by
    itself leaves defined behaviour. *)
Definition free_slot (i : Z) (w : World) : outcome World :=
  match _allocVector w with
  | None => Undefined
  | Some av =>
      match vector av with
      | None => Undefined
      | Some l =>
          match l !! Z.to_nat i with
          | Some (Some p) =>
              Done {| _allocVector := Some {| vector := Some (<[Z.to_nat i := Some NULL]> l);
                                              used := used av;
                                              size := size av |};
                      log := log w ++ [Free_slot p] |}
          | _ => Undefined
          end
      end
  end.

(** [for (int i = 0; i < _allocVector->used; i++) { ... }] with [n] passes
    still to go from index [i].  The body never changes [used], so the loop
    makes [used] passes; the counter is an [int], whose increment is
    undefined at [INT_MAX]. *)
Fixpoint free_slots (n : nat) (i : Z) (w : World) : outcome World :=
  match n with
  | O => Done w
  | S n' =>
      w' ← free_slot i w;
      if i =? INT_MAX then Undefined else free_slots n' (i + 1) w'
  end.

(** [free(_allocVector->vector); _allocVector->vector = NULL;] *)
Definition release_vector (w : World) : outcome World :=
  match _allocVector w with
  | None => Undefined
  | Some av =>
      Done {| _allocVector := Some {| vector := None; used := used av; size := size av |};
              log := log w ++ [Free_vector] |}
  end.

(** [free(_allocVector); _allocVector = NULL;] *)
Definition release_struct (w : World) : outcome World :=
  Done {| _allocVector := None; log := log w ++ [Free_struct] |}.

Definition freeObjects (w : World) : outcome World :=
  match _allocVector w with
  | None => Done w   (* No object ever tracked thus not initialized *)
  | Some av =>
      w1 ← free_slots (Z.to_nat (used av)) 0 w;
      w2 ← release_vector w1;
      release_struct w2
  end.

(** ** Clients: sequences of calls *)

Inductive call : Type :=
| Track (obj : Z)    (* trackObject(obj) *)
| Release.           (* freeObjects() *)

Section Runs.

Variable grant : list event -> Z -> bool.

Definition step (c : call) (w : World) : outcome World :=
  match c with
  | Track obj => trackObject grant obj w
  | Release => freeObjects w
  end.

Fixpoint run (cs : list call) (w : World) : outcome World :=
  match cs with
  | [] => Done w
  | c :: cs' => w' ← step c w; run cs' w'
  end.

(** [trackObject] on each handle of [objs], first to last. *)
Definition track_all (objs : list Z) (w : World) : outcome World :=
  run (Track <$> objs) w.

End Runs.

(** ** Observations on the log *)

(** The pointers handed to [free] from the slots, in call order. *)
Definition released (lg : list event) : list Z :=
  omap (fun e => match e with Free_slot p => Some p | _ => None end) lg.

(** ** Well-formed states *)

(** An active tracker holding the handles [hs] in its first slots, with
    the slots [rest] behind them, and allocator log [lg]. *)
Definition tracker (hs : list Z) (rest : list slot) (lg : list event) : World :=
  {| _allocVector :=
       Some {| vector := Some ((Some <$> hs) ++ rest);
               used := Z.of_nat (length hs);
               size := Z.of_nat (length hs + length rest) |};
     log := lg |}.

(** A tracker whose array is [l], whatever its slots hold. *)
Definition active (l : list slot) (u s : Z) (lg : list event) : World :=
  {| _allocVector := Some {| vector := Some l; used := u; size := s |};
     log := lg |}.

(** The states the two entry points move between: no tracker, or a tracker
    whose array has [size] slots, the first [used] of them holding the
    handles, with at least one slot and a size that is a [size_t] value. *)
Definition well_formed (w : World) : Prop :=
  _allocVector w = None \/
  exists hs rest lg,
    w = tracker hs rest lg /\
    (0 < length hs + length rest)%nat /\
    Z.of_nat (length hs + length rest) < SIZE_MODULUS.

(** An allocator that grants every request. *)
Definition always_grants (grant : list event -> Z -> bool) : Prop :=
  forall lg bytes, grant lg bytes = true.

(** The allocator that grants every request, and the one that grants
    none. *)
Definition grant_all : list event -> Z -> bool := fun _ _ => true.
Definition grant_none : list event -> Z -> bool := fun _ _ => false.

(** An allocator with room for requests of at most [limit] bytes. *)
Definition grant_up_to (limit : Z) : list event -> Z -> bool :=
  fun _ bytes => bytes <=? limit.

(** [0 <= used <= size] wherever a tracker exists. *)
Definition used_within_size (w : World) : Prop :=
  match _allocVector w with
  | None => True
  | Some av => 0 <= used av <= size av
  end.

(** ** Further observations *)

(** The handles a state holds: the contents of the slots below [used]. *)
Definition held (w : World) : list Z :=
  match _allocVector w with
  | None => []
  | Some av =>
      match vector av with
      | None => []
      | Some l => omap id (take (Z.to_nat (used av)) l)
      end
  end.

(** The handles a sequence of calls registers, in call order. *)
Definition tracked_of (cs : list call) : list Z :=
  omap (fun c => match c with Track obj => Some obj | Release => None end) cs.

(** The handles registered since the last [freeObjects] of a sequence of
    calls (or since its beginning), in call order. *)
Definition pending (cs : list call) : list Z :=
  foldl (fun acc c => match c with
                      | Track obj => acc ++ [obj]
                      | Release => []
                      end) [] cs.

(** The [realloc] calls of [g] successive doublings of the initial array:
    2048 bytes, 4096 bytes, ... *)
Definition doubling_log (g : nat) : list event :=
  (fun j : nat => Realloc (1024 * 2 ^ Z.of_nat j) true) <$> seq 1 g.

(** A tracker created after the calls in [base] and grown [g] times since,
    holding [hs] with [k] fresh slots behind them. *)
Definition grown (base : list event) (hs : list Z) (k g : nat) (w : World) : Prop :=
  w = tracker hs (replicate k None)
        (base ++ [Malloc 24 true; Malloc 1024 true] ++ doubling_log g) /\
  (0 < length hs)%nat /\
  Z.of_nat (length hs + k) = 128 * 2 ^ Z.of_nat g /\
  (g = 0%nat \/ 128 * 2 ^ Z.of_nat g < 2 * Z.of_nat (length hs)) /\
  128 * 2 ^ Z.of_nat g * sizeof_ptr < SIZE_MODULUS.

(** The blocks of its own the program holds according to the log: one
    more for each granted [malloc], one less for each [free] of the array or
    of the struct (a granted [realloc] trades one block for another). *)
Definition own_blocks (lg : list event) : Z :=
  foldr (fun e n => match e with
                    | Malloc _ true => n + 1
                    | Free_vector | Free_struct => n - 1
                    | _ => n
                    end) 0 lg.

(** No request in the log was refused. *)
Definition none_refused (lg : list event) : Prop :=
  Forall (fun e => match e with
                   | Malloc _ granted | Realloc _ granted => granted = true
                   | _ => True
                   end) lg.

(** The state with the value of every handle forgotten: what remains is
    which slots are written, [used], [size] and the log. *)
Definition forget_slot (s : slot) : slot :=
  match s with
  | Some _ => Some NULL
  | None => None
  end.

Definition forget (w : World) : World :=
  {| _allocVector :=
       match _allocVector w with
       | None => None
       | Some av =>
           Some {| vector := match vector av with
                             | None => None
                             | Some l => Some (forget_slot <$> l)
                             end;
                   used := used av;
                   size := size av |}
       end;
     log := log w |}.

Definition outcome_map {A B : Type} (f : A -> B) (o : outcome A) : outcome B :=
  match o with
  | Done a => Done (f a)
  | Undefined => Undefined
  end.

(** * Properties *)

(** ** Arithmetic of [size_t] *)

Lemma size_t_small z : 0 <= z < SIZE_MODULUS -> size_t z = z.
Proof. apply Z.mod_small. Qed.

Lemma SIZE_MODULUS_eq : SIZE_MODULUS = 18446744073709551616.
Proof. reflexivity. Qed.

Lemma INT_MAX_eq : INT_MAX = 2147483647.
Proof. reflexivity. Qed.

(** ** What the log shows *)

Lemma released_app lg1 lg2 : released (lg1 ++ lg2) = released lg1 ++ released lg2.
Proof. apply omap_app. Qed.

Lemma released_frees hs tail : released ((Free_slot <$> hs) ++ tail) = hs ++ released tail.
Proof.
  induction hs as [|h hs IH]; simpl; [reflexivity|].
  unfold released in *. simpl. f_equal. exact IH.
Qed.

(** ** Array updates *)

Lemma store_behind (pre : list slot) (x r : slot) (rest : list slot) :
  <[length pre := x]> (pre ++ r :: rest) = pre ++ x :: rest.
Proof.
  rewrite insert_app_r_alt by lia. rewrite Nat.sub_diag. reflexivity.
Qed.

Lemma store_after_prefix (hs : list Z) (x r : slot) (rest : list slot) :
  <[length hs := x]> ((Some <$> hs) ++ r :: rest) = (Some <$> hs) ++ x :: rest.
Proof.
  rewrite <- (length_fmap Some hs). apply store_behind.
Qed.

Lemma tracker_snoc hs obj rest lg :
  {| _allocVector :=
       Some {| vector := Some ((Some <$> hs) ++ Some obj :: rest);
               used := Z.of_nat (length hs) + 1;
               size := Z.of_nat (length hs + S (length rest)) |};
     log := lg |} = tracker (hs ++ [obj]) rest lg.
Proof.
  unfold tracker. rewrite fmap_app, <- app_assoc, length_app. simpl.
  do 3 f_equal; lia.
Qed.

(** ** One call of [trackObject] *)

Section TrackOnce.

Variable grant : list event -> Z -> bool.

Lemma trackObject_first obj w :
  _allocVector w = None ->
  grant (log w) 24 = true ->
  grant (log w ++ [Malloc 24 true]) 1024 = true ->
  trackObject grant obj w =
  Done (tracker [obj] (replicate 127 None)
          (log w ++ [Malloc 24 true; Malloc 1024 true])).
Proof.
  intros Hnone Hs Hv.
  unfold trackObject, needs_init, initAllocVector. rewrite Hnone.
  change sizeof_AllocVector with 24.
  change (size_t (initialSize * sizeof_ptr)) with 1024.
  rewrite Hs, Hv. simpl. rewrite <- app_assoc. reflexivity.
Qed.

Lemma trackObject_room obj hs r rest lg :
  Z.of_nat (length hs + S (length rest)) < SIZE_MODULUS ->
  trackObject grant obj (tracker hs (r :: rest) lg) =
  Done (tracker (hs ++ [obj]) rest lg).
Proof.
  intros Hbound.
  unfold trackObject, needs_init, tracker. simpl.
  unfold grow. simpl.
  destruct (Z.eqb_spec (Z.of_nat (length hs)) (Z.of_nat (length hs + S (length rest))))
    as [Heq|_]; [lia|].
  simpl. unfold append. simpl.
  rewrite Nat2Z.id.
  destruct (Nat.ltb_spec (length hs) (length ((Some <$> hs) ++ r :: rest))) as [_|Hge].
  2:{ rewrite length_app, length_fmap in Hge. simpl in Hge. lia. }
  rewrite store_after_prefix, size_t_small by lia.
  f_equal. apply tracker_snoc.
Qed.

Lemma trackObject_full obj hs lg :
  (0 < length hs)%nat ->
  16 * Z.of_nat (length hs) < SIZE_MODULUS ->
  grant lg (16 * Z.of_nat (length hs)) = true ->
  trackObject grant obj (tracker hs [] lg) =
  Done (tracker (hs ++ [obj]) (replicate (length hs - 1) None)
          (lg ++ [Realloc (16 * Z.of_nat (length hs)) true])).
Proof.
  intros Hpos Hbound Hgrant.
  rewrite SIZE_MODULUS_eq in Hbound.
  unfold trackObject, needs_init, tracker. simpl.
  unfold grow. simpl.
  rewrite Nat.add_0_r, Z.eqb_refl.
  rewrite (size_t_small (Z.of_nat (length hs) * 2)) by (rewrite SIZE_MODULUS_eq; lia).
  unfold sizeof_ptr.
  rewrite size_t_small by (rewrite SIZE_MODULUS_eq; lia).
  replace (Z.of_nat (length hs) * 2 * 8) with (16 * Z.of_nat (length hs)) by lia.
  rewrite Hgrant. simpl. unfold append. simpl.
  rewrite Nat2Z.id.
  assert (Hslots : slots_of (16 * Z.of_nat (length hs)) = (length hs + length hs)%nat).
  { unfold slots_of, sizeof_ptr.
    replace (16 * Z.of_nat (length hs)) with (Z.of_nat (length hs + length hs) * 8) by lia.
    rewrite Z.div_mul by lia. apply Nat2Z.id. }
  rewrite Hslots, app_nil_r.
  rewrite resize_ge by (rewrite length_fmap; lia).
  rewrite length_fmap.
  replace (length hs + length hs - length hs)%nat with (S (length hs - 1)) by lia.
  simpl replicate.
  destruct (Nat.ltb_spec (length hs)
              (length ((Some <$> hs) ++ None :: replicate (length hs - 1) None)))
    as [_|Hge].
  2:{ rewrite length_app, length_fmap in Hge. simpl in Hge. lia. }
  rewrite store_after_prefix, size_t_small by (rewrite SIZE_MODULUS_eq; lia).
  rewrite fmap_app, <- app_assoc, length_app, length_replicate. simpl.
  do 4 f_equal; lia.
Qed.

End TrackOnce.

(** ** The release loop *)

Lemma tracker_active hs rest lg :
  tracker hs rest lg =
  active ((Some <$> hs) ++ rest) (Z.of_nat (length hs))
    (Z.of_nat (length hs + length rest)) lg.
Proof. reflexivity. Qed.

Lemma free_slot_at pre h tail u s lg :
  free_slot (Z.of_nat (length pre)) (active (pre ++ Some h :: tail) u s lg) =
  Done (active (pre ++ Some NULL :: tail) u s (lg ++ [Free_slot h])).
Proof.
  unfold free_slot, active. simpl. rewrite Nat2Z.id.
  rewrite list_lookup_middle by reflexivity.
  rewrite store_behind. reflexivity.
Qed.

(** [n] passes from index [length pre] free the next [n] handles in slot
    order and leave NULL in their slots. *)
Lemma free_slots_from hs : forall pre rest u s lg,
  Z.of_nat (length pre + length hs) <= INT_MAX ->
  free_slots (length hs) (Z.of_nat (length pre))
    (active (pre ++ (Some <$> hs) ++ rest) u s lg) =
  Done (active (pre ++ replicate (length hs) (Some NULL) ++ rest) u s
          (lg ++ (Free_slot <$> hs))).
Proof.
  induction hs as [|h hs IH]; intros pre rest u s lg Hmax.
  - simpl. rewrite app_nil_r. reflexivity.
  - cbn [length free_slots fmap list_fmap app replicate].
    rewrite free_slot_at. cbn [mbind outcome_bind].
    destruct (Z.eqb_spec (Z.of_nat (length pre)) INT_MAX) as [Heq|_].
    { simpl in Hmax. lia. }
    replace (Z.of_nat (length pre) + 1) with (Z.of_nat (length (pre ++ [Some NULL])))
      by (rewrite length_app; simpl; lia).
    replace (pre ++ Some NULL :: (Some <$> hs) ++ rest)
      with ((pre ++ [Some NULL]) ++ (Some <$> hs) ++ rest)
      by (rewrite <- app_assoc; reflexivity).
    rewrite IH by (rewrite length_app; simpl in *; lia).
    rewrite <- !app_assoc. reflexivity.
Qed.

(** The first [k] passes of a longer loop are the loop of [k] passes. *)
Lemma free_slots_split k : forall m i w,
  free_slots (k + m) i w =
  (w' ← free_slots k i w; free_slots m (i + Z.of_nat k) w').
Proof.
  induction k as [|k IH]; intros m i w.
  - simpl. rewrite Z.add_0_r. reflexivity.
  - cbn [Nat.add free_slots].
    destruct (free_slot i w) as [w1|]; cbn [mbind outcome_bind]; [|reflexivity].
    destruct (i =? INT_MAX); [reflexivity|].
    rewrite IH. replace (i + 1 + Z.of_nat k) with (i + Z.of_nat (S k)) by lia.
    reflexivity.
Qed.

Lemma freeObjects_tracker hs rest lg :
  Z.of_nat (length hs) <= INT_MAX ->
  freeObjects (tracker hs rest lg) =
  Done {| _allocVector := None;
          log := lg ++ (Free_slot <$> hs) ++ [Free_vector; Free_struct] |}.
Proof.
  intros Hmax. unfold freeObjects. simpl. rewrite Nat2Z.id.
  pose proof (free_slots_from hs [] rest (Z.of_nat (length hs))
                (Z.of_nat (length hs + length rest)) lg Hmax) as Hloop.
  cbn in Hloop. change (Z.of_nat 0) with 0 in Hloop.
  unfold tracker. unfold active in Hloop at 1.
  rewrite Hloop. simpl. unfold release_struct. simpl.
  rewrite <- !app_assoc. reflexivity.
Qed.

(** The loop counter of [freeObjects] is an [int] while [used] is a
    [size_t]: with more than [INT_MAX] handles the increment overflows. *)
Lemma free_slots_overflow hs : forall pre rest u s lg,
  Z.of_nat (length pre) <= INT_MAX < Z.of_nat (length pre + length hs) ->
  free_slots (length hs) (Z.of_nat (length pre))
    (active (pre ++ (Some <$> hs) ++ rest) u s lg) = Undefined.
Proof.
  induction hs as [|h hs IH]; intros pre rest u s lg Hmax.
  - simpl in Hmax. lia.
  - cbn [length free_slots fmap list_fmap app].
    rewrite free_slot_at. cbn [mbind outcome_bind].
    destruct (Z.eqb_spec (Z.of_nat (length pre)) INT_MAX) as [Heq|Hne];
      [reflexivity|].
    replace (Z.of_nat (length pre) + 1) with (Z.of_nat (length (pre ++ [Some NULL])))
      by (rewrite length_app; simpl; lia).
    replace (pre ++ Some NULL :: (Some <$> hs) ++ rest)
      with ((pre ++ [Some NULL]) ++ (Some <$> hs) ++ rest)
      by (rewrite <- app_assoc; reflexivity).
    apply IH. rewrite length_app. simpl in *. lia.
Qed.

Lemma freeObjects_overflow hs rest lg :
  INT_MAX < Z.of_nat (length hs) ->
  freeObjects (tracker hs rest lg) = Undefined.
Proof.
  intros Hmax. unfold freeObjects. simpl. rewrite Nat2Z.id.
  pose proof (free_slots_overflow hs [] rest (Z.of_nat (length hs))
                (Z.of_nat (length hs + length rest)) lg) as Hloop.
  cbn in Hloop. change (Z.of_nat 0) with 0 in Hloop.
  unfold tracker. unfold active in Hloop.
  rewrite Hloop; [reflexivity|]. rewrite INT_MAX_eq in *. lia.
Qed.

(** So a [freeObjects] that completes on a tracker had at most [INT_MAX]
    handles to free, and did what [freeObjects_tracker] says. *)
Lemma freeObjects_tracker_done hs rest lg w' :
  freeObjects (tracker hs rest lg) = Done w' ->
  Z.of_nat (length hs) <= INT_MAX /\
  w' = {| _allocVector := None;
          log := lg ++ (Free_slot <$> hs) ++ [Free_vector; Free_struct] |}.
Proof.
  intros Hdone.
  destruct (Z_le_gt_dec (Z.of_nat (length hs)) INT_MAX) as [Hle|Hgt].
  - rewrite freeObjects_tracker in Hdone by exact Hle.
    injection Hdone as <-. auto.
  - rewrite freeObjects_overflow in Hdone by lia. discriminate.
Qed.

Lemma freeObjects_none w :
  _allocVector w = None -> freeObjects w = Done w.
Proof. intros H. unfold freeObjects. rewrite H. reflexivity. Qed.

(** Whenever [freeObjects] completes, no tracker is left. *)
Lemma freeObjects_leaves_none w w' :
  freeObjects w = Done w' -> _allocVector w' = None.
Proof.
  unfold freeObjects. destruct (_allocVector w) as [av|] eqn:Hav.
  - destruct (free_slots (Z.to_nat (used av)) 0 w) as [w1|]; simpl; [|discriminate].
    unfold release_vector. destruct (_allocVector w1); simpl; [|discriminate].
    unfold release_struct. intros [= <-]. reflexivity.
  - intros [= <-]. exact Hav.
Qed.

(** ** Runs of several calls *)

Section ManyCalls.

Variable grant : list event -> Z -> bool.

Lemma run_app cs1 : forall cs2 w,
  run grant (cs1 ++ cs2) w = (w' ← run grant cs1 w; run grant cs2 w').
Proof.
  induction cs1 as [|c cs1 IH]; intros cs2 w; [reflexivity|].
  simpl. destruct (step grant c w) as [w1|]; simpl; [apply IH|reflexivity].
Qed.

Lemma track_all_cons obj objs w :
  track_all grant (obj :: objs) w =
  (w' ← trackObject grant obj w; track_all grant objs w').
Proof. reflexivity. Qed.

Lemma track_all_app objs1 objs2 w :
  track_all grant (objs1 ++ objs2) w =
  (w' ← track_all grant objs1 w; track_all grant objs2 w').
Proof. unfold track_all. rewrite fmap_app. apply run_app. Qed.

(** While there is room, tracking only fills slots. *)
Lemma track_all_room objs : forall hs rest lg,
  (length objs <= length rest)%nat ->
  Z.of_nat (length hs + length rest) < SIZE_MODULUS ->
  track_all grant objs (tracker hs rest lg) =
  Done (tracker (hs ++ objs) (drop (length objs) rest) lg).
Proof.
  induction objs as [|obj objs IH]; intros hs rest lg Hroom Hbound.
  - simpl. rewrite app_nil_r, drop_0. reflexivity.
  - destruct rest as [|r rest]; simpl in Hroom; [lia|].
    rewrite track_all_cons, trackObject_room by exact Hbound.
    cbn [mbind outcome_bind].
    rewrite IH.
    + rewrite <- app_assoc. reflexivity.
    + lia.
    + rewrite length_app. simpl in *. lia.
Qed.

(** With every request granted, tracking completes for as long as the byte
    count of the doubled array fits [size_t], that is up to [2^60] handles;
    it keeps the handles in call order and frees nothing. *)
Lemma track_all_tracker objs : forall hs rest lg,
  always_grants grant ->
  (0 < length hs + length rest)%nat ->
  Z.of_nat (length hs + length rest) <= 2 ^ 61 ->
  Z.of_nat (length hs + length objs) <= 2 ^ 60 ->
  exists rest' added,
    track_all grant objs (tracker hs rest lg) =
    Done (tracker (hs ++ objs) rest' (lg ++ added)) /\
    released added = [].
Proof.
  induction objs as [|obj objs IH]; intros hs rest lg Hgrant Hpos Hsize Hmax.
  - exists rest, []. rewrite !app_nil_r. split; reflexivity.
  - cbn [length] in Hmax.
    assert (Hlen : Z.of_nat (length (hs ++ [obj]) + length objs) <= 2 ^ 60).
    { rewrite length_app. cbn [length]. lia. }
    rewrite track_all_cons.
    destruct rest as [|r rest]; cbn [length] in Hpos, Hsize.
    + rewrite trackObject_full;
        [|lia|rewrite SIZE_MODULUS_eq; lia|apply Hgrant].
      cbn [mbind outcome_bind].
      destruct (IH (hs ++ [obj]) (replicate (length hs - 1) None)
                  (lg ++ [Realloc (16 * Z.of_nat (length hs)) true]))
        as (rest' & added & Hrun & Hrel); try assumption.
      * rewrite length_app. cbn [length]. lia.
      * rewrite length_app, length_replicate. cbn [length]. lia.
      * exists rest', (Realloc (16 * Z.of_nat (length hs)) true :: added).
        rewrite Hrun, <- !app_assoc. split; [reflexivity|exact Hrel].
    + rewrite trackObject_room by (rewrite SIZE_MODULUS_eq; lia).
      cbn [mbind outcome_bind].
      destruct (IH (hs ++ [obj]) rest lg)
        as (rest' & added & Hrun & Hrel); try assumption.
      * rewrite length_app. cbn [length]. lia.
      * rewrite length_app. cbn [length]. lia.
      * exists rest', added. rewrite Hrun, <- !app_assoc.
        split; [reflexivity|exact Hrel].
Qed.

(** The same from a state without tracker: the first call creates it. *)
Lemma track_all_fresh objs w :
  always_grants grant ->
  _allocVector w = None ->
  (0 < length objs)%nat ->
  Z.of_nat (length objs) <= 2 ^ 60 ->
  exists rest added,
    track_all grant objs w =
    Done (tracker objs rest (log w ++ added)) /\
    released added = [].
Proof.
  intros Hgrant Hnone Hpos Hmax.
  destruct objs as [|obj objs]; cbn [length] in Hpos, Hmax; [lia|].
  rewrite track_all_cons, trackObject_first by (exact Hnone || apply Hgrant).
  cbn [mbind outcome_bind].
  destruct (track_all_tracker objs [obj] (replicate 127 None)
              (log w ++ [Malloc 24 true; Malloc 1024 true]))
    as (rest & added & Hrun & Hrel); try assumption.
  - cbn [length]. lia.
  - rewrite length_replicate. cbn [length]. lia.
  - exists rest, ([Malloc 24 true; Malloc 1024 true] ++ added).
    rewrite Hrun, <- !app_assoc. split; [reflexivity|exact Hrel].
Qed.

End ManyCalls.

(** ** Reachable states *)

Section Reachable.

Variable grant : list event -> Z -> bool.

(** A first call that completes has created the tracker: a refused
    [malloc] leaves no defined result. *)
Lemma trackObject_none_done obj w w' :
  _allocVector w = None ->
  trackObject grant obj w = Done w' ->
  w' = tracker [obj] (replicate 127 None)
         (log w ++ [Malloc 24 true; Malloc 1024 true]) /\
  grant (log w) 24 = true /\
  grant (log w ++ [Malloc 24 true]) 1024 = true.
Proof.
  intros Hnone.
  destruct (grant (log w) 24) eqn:Hs.
  - destruct (grant (log w ++ [Malloc 24 true]) 1024) eqn:Hv.
    + rewrite trackObject_first by assumption. intros [= <-]. auto.
    + unfold trackObject, needs_init, initAllocVector. rewrite Hnone.
      change sizeof_AllocVector with 24.
      change (size_t (initialSize * sizeof_ptr)) with 1024.
      rewrite Hs, Hv. simpl. discriminate.
  - unfold trackObject, needs_init, initAllocVector. rewrite Hnone.
    change sizeof_AllocVector with 24. rewrite Hs. simpl. discriminate.
Qed.

Lemma trackObject_full_unfold obj hs lg :
  trackObject grant obj (tracker hs [] lg) =
  let bytes := size_t (size_t (Z.of_nat (length hs) * 2) * sizeof_ptr) in
  let granted := grant lg bytes in
  append obj
    {| _allocVector :=
         Some {| vector := realloc_array (Some (Some <$> hs)) bytes granted;
                 used := Z.of_nat (length hs);
                 size := size_t (Z.of_nat (length hs) * 2) |};
       log := lg ++ [Realloc bytes granted] |}.
Proof.
  unfold trackObject, needs_init, tracker. simpl.
  unfold grow. simpl.
  rewrite Nat.add_0_r, Z.eqb_refl, app_nil_r. reflexivity.
Qed.

(** Past [2^60] slots the byte count of the doubled array wraps around:
    the new array is too short for the store. *)
Lemma wrapped_request_too_short n :
  0 <= n < SIZE_MODULUS ->
  SIZE_MODULUS <= 16 * n ->
  (slots_of (size_t (size_t (n * 2) * sizeof_ptr)) <= Z.to_nat n)%nat.
Proof.
  unfold slots_of, size_t, sizeof_ptr, SIZE_MODULUS.
  change (2 ^ 64) with 18446744073709551616.
  intros Hn Hwrap.
  apply Z2Nat.inj_le; [| lia |].
  - apply Z.div_pos; [|lia]. apply Z.mod_pos_bound. lia.
  - Z.div_mod_to_equations. lia.
Qed.

Lemma trackObject_full_done obj hs lg w' :
  (0 < length hs)%nat ->
  Z.of_nat (length hs) < SIZE_MODULUS ->
  trackObject grant obj (tracker hs [] lg) = Done w' ->
  16 * Z.of_nat (length hs) < SIZE_MODULUS /\
  grant lg (16 * Z.of_nat (length hs)) = true.
Proof.
  intros Hpos Hbound. rewrite trackObject_full_unfold. cbv zeta.
  destruct (Z_lt_dec (16 * Z.of_nat (length hs)) SIZE_MODULUS) as [Hfit|Hwrap].
  - rewrite SIZE_MODULUS_eq in Hfit.
    rewrite (size_t_small (Z.of_nat (length hs) * 2)) by (rewrite SIZE_MODULUS_eq; lia).
    unfold sizeof_ptr.
    rewrite size_t_small by (rewrite SIZE_MODULUS_eq; lia).
    replace (Z.of_nat (length hs) * 2 * 8) with (16 * Z.of_nat (length hs)) by lia.
    destruct (grant lg (16 * Z.of_nat (length hs))).
    + intros _. rewrite SIZE_MODULUS_eq. auto.
    + unfold append. simpl. discriminate.
  - pose proof (wrapped_request_too_short (Z.of_nat (length hs))) as Hshort.
    rewrite Nat2Z.id in Hshort.
    destruct (grant lg _).
    + unfold append, realloc_array. simpl. rewrite Nat2Z.id, length_resize.
      destruct (Nat.ltb_spec (length hs)
                  (slots_of (size_t (size_t (Z.of_nat (length hs) * 2) * sizeof_ptr))))
        as [Hlt|_]; [|discriminate].
      assert (slots_of (size_t (size_t (Z.of_nat (length hs) * 2) * sizeof_ptr))
              <= length hs)%nat by (apply Hshort; lia).
      lia.
    + unfold append. simpl. discriminate.
Qed.

(** [trackObject] on a well-formed tracker: whenever it completes, the
    handle sits behind the ones before it and the state is well formed. *)
Lemma trackObject_tracker_done obj hs rest lg w' :
  (0 < length hs + length rest)%nat ->
  Z.of_nat (length hs + length rest) < SIZE_MODULUS ->
  trackObject grant obj (tracker hs rest lg) = Done w' ->
  exists rest' added,
    w' = tracker (hs ++ [obj]) rest' (lg ++ added) /\
    released added = [] /\
    Z.of_nat (length (hs ++ [obj]) + length rest') < SIZE_MODULUS.
Proof.
  intros Hpos Hbound Hdone.
  destruct rest as [|r rest]; cbn [length] in Hpos, Hbound.
  - rewrite Nat.add_0_r in Hpos, Hbound.
    destruct (trackObject_full_done obj hs lg w' Hpos Hbound Hdone) as [Hfit Hgrant].
    rewrite trackObject_full in Hdone by assumption.
    injection Hdone as <-.
    eexists _, [_]. split; [reflexivity|]. split; [reflexivity|].
    rewrite length_app, length_replicate. simpl.
    rewrite SIZE_MODULUS_eq in *. lia.
  - rewrite trackObject_room in Hdone by exact Hbound.
    injection Hdone as <-.
    exists rest, []. rewrite app_nil_r. split; [reflexivity|]. split; [reflexivity|].
    rewrite length_app. simpl.
    replace (length hs + 1 + length rest)%nat with (length hs + S (length rest))%nat by lia.
    exact Hbound.
Qed.

(** Tracking that completes keeps every handle, in call order, and frees
    nothing, whatever the allocator answered. *)
Lemma track_all_tracker_done objs : forall hs rest lg w',
  (0 < length hs + length rest)%nat ->
  Z.of_nat (length hs + length rest) < SIZE_MODULUS ->
  track_all grant objs (tracker hs rest lg) = Done w' ->
  exists rest' added,
    w' = tracker (hs ++ objs) rest' (lg ++ added) /\
    released added = [].
Proof.
  induction objs as [|obj objs IH]; intros hs rest lg w' Hpos Hbound.
  - intros [= <-]. exists rest, []. rewrite !app_nil_r. auto.
  - rewrite track_all_cons.
    destruct (trackObject grant obj (tracker hs rest lg)) as [w1|] eqn:Hone;
      cbn [mbind outcome_bind]; [|discriminate].
    destruct (trackObject_tracker_done obj hs rest lg w1 Hpos Hbound Hone)
      as (rest1 & added1 & -> & Hrel1 & Hbound1).
    intros Hrun. apply IH in Hrun; [|rewrite length_app; simpl; lia|exact Hbound1].
    destruct Hrun as (rest' & added' & -> & Hrel').
    exists rest', (added1 ++ added').
    rewrite <- !app_assoc, released_app, Hrel1, Hrel'. auto.
Qed.

Lemma track_all_done obj objs w w' :
  _allocVector w = None ->
  track_all grant (obj :: objs) w = Done w' ->
  exists rest added,
    w' = tracker (obj :: objs) rest (log w ++ added) /\
    released added = [].
Proof.
  intros Hnone. rewrite track_all_cons.
  destruct (trackObject grant obj w) as [w1|] eqn:Hone;
    cbn [mbind outcome_bind]; [|discriminate].
  destruct (trackObject_none_done obj w w1 Hnone Hone) as (-> & _ & _).
  intros Hrun. apply track_all_tracker_done in Hrun.
  - destruct Hrun as (rest & added & -> & Hrel).
    exists rest, ([Malloc 24 true; Malloc 1024 true] ++ added).
    rewrite <- !app_assoc. auto.
  - simpl. lia.
  - rewrite length_replicate, SIZE_MODULUS_eq. simpl. lia.
Qed.

Lemma trackObject_well_formed obj w w' :
  well_formed w -> trackObject grant obj w = Done w' -> well_formed w'.
Proof.
  intros [Hnone|(hs & rest & lg & -> & Hpos & Hbound)] Hdone; right.
  - destruct (trackObject_none_done obj w w' Hnone Hdone) as (-> & _ & _).
    eexists _, _, _. split; [reflexivity|].
    rewrite length_replicate, SIZE_MODULUS_eq. simpl. lia.
  - destruct (trackObject_tracker_done obj hs rest lg w' Hpos Hbound Hdone)
      as (rest' & added & -> & _ & Hbound').
    eexists _, _, _. split; [reflexivity|]. split; [|exact Hbound'].
    rewrite length_app. simpl. lia.
Qed.

Lemma step_well_formed c w w' :
  well_formed w -> step grant c w = Done w' -> well_formed w'.
Proof.
  destruct c as [obj|]; simpl.
  - apply trackObject_well_formed.
  - intros _ Hdone. left. exact (freeObjects_leaves_none w w' Hdone).
Qed.

Lemma run_well_formed cs : forall w w',
  well_formed w -> run grant cs w = Done w' -> well_formed w'.
Proof.
  induction cs as [|c cs IH]; intros w w' Hwf; simpl.
  - intros [= <-]. exact Hwf.
  - destruct (step grant c w) as [w1|] eqn:Hstep; simpl; [|discriminate].
    apply IH. exact (step_well_formed c w w1 Hwf Hstep).
Qed.

End Reachable.

Lemma well_formed_used_within_size w :
  well_formed w -> used_within_size w.
Proof.
  intros [Hnone|(hs & rest & lg & -> & _ & _)]; unfold used_within_size.
  - rewrite Hnone. exact I.
  - simpl. lia.
Qed.

(** * The allocation tracker's contract *)

(** The first 128 handles fill the initial array without any growth. *)
Lemma track_all_initial_array grant (hs : list Z) (w0 : World) :
  grant (log w0) 24 = true ->
  grant (log w0 ++ [Malloc 24 true]) 1024 = true ->
  _allocVector w0 = None ->
  (0 < length hs <= 128)%nat ->
  track_all grant hs w0 =
  Done (tracker hs (replicate (128 - length hs) None)
          (log w0 ++ [Malloc 24 true; Malloc 1024 true])).
Proof.
  intros Hs Hv Hnone Hlen.
  destruct hs as [|h hs]; simpl in Hlen; [lia|].
  rewrite track_all_cons, trackObject_first by assumption.
  cbn [mbind outcome_bind].
  rewrite track_all_room.
  - rewrite drop_replicate. simpl.
    replace (127 - length hs)%nat with (128 - S (length hs))%nat by lia.
    reflexivity.
  - rewrite length_replicate. lia.
  - rewrite length_replicate, SIZE_MODULUS_eq. simpl. lia.
Qed.

(** C2: starting without tracker, the first 128 registrations fill the
    initial array of capacity 128 with no call to [realloc]; the 129th makes
    exactly one, for 2048 bytes, after which the capacity is 256, [used] is
    129 and the first 129 slots hold the registered handles in registration
    order. *)
Theorem growth_at_129th_handle grant (hs : list Z) (w0 : World) :
  always_grants grant ->
  _allocVector w0 = None ->
  length hs = 129%nat ->
  track_all grant (take 128 hs) w0 =
    Done {| _allocVector :=
              Some {| vector := Some (Some <$> take 128 hs);
                      used := 128;
                      size := 128 |};
            log := log w0 ++ [Malloc 24 true; Malloc 1024 true] |} /\
  track_all grant hs w0 =
    Done {| _allocVector :=
              Some {| vector := Some ((Some <$> hs) ++ replicate 127 None);
                      used := 129;
                      size := 256 |};
            log := log w0 ++ [Malloc 24 true; Malloc 1024 true; Realloc 2048 true] |}.
Proof.
  intros Hgrant Hnone Hlen.
  assert (Hpre : length (take 128 hs) = 128%nat) by (rewrite length_take; lia).
  assert (Hfirst : track_all grant (take 128 hs) w0 =
                   Done (tracker (take 128 hs) []
                           (log w0 ++ [Malloc 24 true; Malloc 1024 true]))).
  { rewrite track_all_initial_array by (auto; lia).
    rewrite Hpre. reflexivity. }
  split.
  - rewrite Hfirst. unfold tracker. rewrite app_nil_r, Hpre. reflexivity.
  - destruct (drop 128 hs) as [|x [|y tl]] eqn:Hdrop.
    + apply (f_equal length) in Hdrop. rewrite length_drop in Hdrop. simpl in Hdrop. lia.
    + rewrite <- (take_drop 128 hs) at 1. rewrite Hdrop.
      rewrite track_all_app, Hfirst. cbn [mbind outcome_bind].
      rewrite track_all_cons, trackObject_full;
        [|lia|rewrite Hpre, SIZE_MODULUS_eq; lia|apply Hgrant].
      cbn [mbind outcome_bind track_all run fmap list_fmap].
      rewrite Hpre, <- app_assoc.
      replace (take 128 hs ++ [x]) with hs
        by (rewrite <- Hdrop; symmetry; apply take_drop).
      unfold tracker. rewrite length_replicate, Hlen. reflexivity.
    + apply (f_equal length) in Hdrop. rewrite length_drop in Hdrop. simpl in Hdrop. lia.
Qed.

Lemma growth_at_129th_handle_witness :
  track_all grant_all (take 128 (Z.of_nat <$> seq 1 129)) start =
    Done {| _allocVector :=
              Some {| vector := Some (Some <$> take 128 (Z.of_nat <$> seq 1 129));
                      used := 128;
                      size := 128 |};
            log := log start ++ [Malloc 24 true; Malloc 1024 true] |} /\
  track_all grant_all (Z.of_nat <$> seq 1 129) start =
    Done {| _allocVector :=
              Some {| vector := Some ((Some <$> (Z.of_nat <$> seq 1 129)) ++ replicate 127 None);
                      used := 129;
                      size := 256 |};
            log := log start ++ [Malloc 24 true; Malloc 1024 true; Realloc 2048 true] |}.
Proof.
  apply (growth_at_129th_handle grant_all (Z.of_nat <$> seq 1 129) start).
  - intros lg bytes. reflexivity.
  - reflexivity.
  - vm_compute. reflexivity.
Defined.

(** C3: with no tracker, [freeObjects] returns at once: it frees nothing
    and leaves the state, log included, as it found it.  That is the state
    both before the first [trackObject] and after any completed
    [freeObjects], so a second [freeObjects] in a row changes nothing. *)
Theorem freeObjects_without_tracker :
  (forall w, _allocVector w = None -> freeObjects w = Done w) /\
  freeObjects start = Done start /\
  (forall w w', freeObjects w = Done w' -> freeObjects w' = Done w').
Proof.
  split; [exact freeObjects_none|]. split; [reflexivity|].
  intros w w' Hdone. apply freeObjects_none.
  exact (freeObjects_leaves_none w w' Hdone).
Qed.

Lemma freeObjects_without_tracker_witness :
  freeObjects (tracker [11; 22] [None] []) =
    Done {| _allocVector := None;
            log := [Free_slot 11; Free_slot 22; Free_vector; Free_struct] |} /\
  freeObjects {| _allocVector := None;
                 log := [Free_slot 11; Free_slot 22; Free_vector; Free_struct] |} =
    Done {| _allocVector := None;
            log := [Free_slot 11; Free_slot 22; Free_vector; Free_struct] |}.
Proof.
  assert (H1 : freeObjects (tracker [11; 22] [None] []) =
    Done {| _allocVector := None;
            log := [Free_slot 11; Free_slot 22; Free_vector; Free_struct] |})
    by reflexivity.
  split; [exact H1|].
  exact (proj2 (proj2 freeObjects_without_tracker) _ _ H1).
Defined.

(** C4, as the code has it: [trackObject] returns [void] and never tests
    what [malloc] or [realloc] returned.  Whenever one of its requests is
    refused (the struct, the initial array, or the doubled array), the call
    goes on to store through the null pointer it got: its behaviour is
    undefined, and no error reaches the caller. *)
Theorem refused_allocation_is_undefined grant obj (w : World) :
  (needs_init w = true ->
   grant (log w) sizeof_AllocVector = false ->
   trackObject grant obj w = Undefined) /\
  (needs_init w = true ->
   grant (log w ++ [Malloc sizeof_AllocVector (grant (log w) sizeof_AllocVector)])
         (size_t (initialSize * sizeof_ptr)) = false ->
   trackObject grant obj w = Undefined) /\
  (forall av,
   _allocVector w = Some av ->
   vector av <> None ->
   used av = size av ->
   grant (log w) (size_t (size_t (size av * 2) * sizeof_ptr)) = false ->
   trackObject grant obj w = Undefined).
Proof.
  split; [|split].
  - intros Hinit Hs. unfold trackObject, initAllocVector.
    rewrite Hinit, Hs. reflexivity.
  - intros Hinit Hv. unfold trackObject, initAllocVector.
    rewrite Hinit, Hv.
    destruct (grant (log w) sizeof_AllocVector); reflexivity.
  - intros av Hav Hvec Hfull Hr. unfold trackObject, needs_init.
    rewrite Hav. destruct (vector av) as [l|] eqn:Hl; [|contradiction].
    cbn [mbind outcome_bind]. unfold grow. rewrite Hav, Hfull, Z.eqb_refl, Hr.
    reflexivity.
Qed.

Lemma refused_allocation_is_undefined_witness :
  trackObject grant_none 7 start = Undefined /\
  trackObject (grant_up_to 24) 7 start = Undefined /\
  trackObject (grant_up_to 24) 7 (tracker [1; 2] [] []) = Undefined.
Proof.
  split; [|split].
  - apply (proj1 (refused_allocation_is_undefined grant_none 7 start));
      reflexivity.
  - apply (proj1 (proj2 (refused_allocation_is_undefined (grant_up_to 24) 7 start)));
      reflexivity.
  - apply (proj2 (proj2 (refused_allocation_is_undefined (grant_up_to 24) 7
                           (tracker [1; 2] [] [])))
             {| vector := Some [Some 1; Some 2]; used := 2; size := 2 |}).
    + reflexivity.
    + discriminate.
    + reflexivity.
    + reflexivity.
Defined.

(** C4 as stated fails: with the first [malloc] refused, the first
    [trackObject] has no defined result at all, recoverable or not; and
    with room for the initial array only, 128 registrations complete and
    the 129th, whose [realloc] is refused, is undefined. *)
Lemma out_of_memory_not_surfaced :
  grant_none (log start) sizeof_AllocVector = false /\
  trackObject grant_none 7 start = Undefined /\
  (exists w, track_all (grant_up_to 1024) (replicate 128 7) start = Done w /\
             grant_up_to 1024 (log w) 2048 = false /\
             trackObject (grant_up_to 1024) 7 w = Undefined).
Proof.
  split; [reflexivity|]. split; [reflexivity|].
  eexists. split; [vm_compute; reflexivity|]. split; vm_compute; reflexivity.
Qed.

(** C5: one [trackObject] on an active tracker that holds [hs], with
    [rest] the slots behind them.  With no slot left ([used = size]) the
    capacity doubles, one [realloc] for the doubled array is made, and the
    old entries keep their places; otherwise nothing is allocated.  Then
    the handle goes into slot [used] and [used] grows by one: the slots
    below it are those that were there, in the same order. *)
Theorem trackObject_appends grant obj (hs : list Z) (rest : list slot) lg :
  (0 < length hs + length rest)%nat ->
  Z.of_nat (length hs + length rest) < SIZE_MODULUS ->
  (rest = [] ->
   16 * Z.of_nat (length hs) < SIZE_MODULUS /\
   grant lg (16 * Z.of_nat (length hs)) = true) ->
  exists l',
    trackObject grant obj (tracker hs rest lg) =
      Done {| _allocVector :=
                Some {| vector := Some l';
                        used := Z.of_nat (length hs) + 1;
                        size := match rest with
                                | [] => 2 * Z.of_nat (length hs)
                                | _ => Z.of_nat (length hs + length rest)
                                end |};
              log := lg ++ match rest with
                           | [] => [Realloc (16 * Z.of_nat (length hs)) true]
                           | _ => []
                           end |} /\
    take (length hs) l' = Some <$> hs /\
    l' !! length hs = Some (Some obj) /\
    Z.of_nat (length l') = match rest with
                           | [] => 2 * Z.of_nat (length hs)
                           | _ => Z.of_nat (length hs + length rest)
                           end.
Proof.
  intros Hpos Hbound Hfull.
  destruct rest as [|r rest]; cbn [length] in Hpos, Hbound.
  - destruct (Hfull eq_refl) as [Hfit Hgrant].
    exists ((Some <$> hs) ++ Some obj :: replicate (length hs - 1) None).
    rewrite trackObject_full by (assumption || lia).
    rewrite <- tracker_snoc, length_replicate. split; [|split; [|split]].
    + do 4 f_equal. lia.
    + rewrite <- (length_fmap Some hs) at 1. apply take_app_length.
    + rewrite <- (length_fmap Some hs) at 1.
      apply list_lookup_middle. reflexivity.
    + rewrite length_app, length_fmap. simpl. rewrite length_replicate. lia.
  - exists ((Some <$> hs) ++ Some obj :: rest).
    rewrite trackObject_room by exact Hbound.
    rewrite <- tracker_snoc, app_nil_r. split; [|split; [|split]].
    + reflexivity.
    + rewrite <- (length_fmap Some hs) at 1. apply take_app_length.
    + rewrite <- (length_fmap Some hs) at 1.
      apply list_lookup_middle. reflexivity.
    + rewrite length_app, length_fmap. simpl. lia.
Qed.

Lemma trackObject_appends_witness :
  (exists l',
    trackObject grant_all 33 (tracker [11; 22] [] []) =
      Done {| _allocVector := Some {| vector := Some l'; used := 3; size := 4 |};
              log := [Realloc 32 true] |} /\
    take 2 l' = [Some 11; Some 22] /\
    l' !! 2%nat = Some (Some 33) /\
    Z.of_nat (length l') = 4) /\
  (exists l',
    trackObject grant_none 33 (tracker [11; 22] [None; None] []) =
      Done {| _allocVector := Some {| vector := Some l'; used := 3; size := 4 |};
              log := [] |} /\
    take 2 l' = [Some 11; Some 22] /\
    l' !! 2%nat = Some (Some 33) /\
    Z.of_nat (length l') = 4).
Proof.
  split.
  - apply (trackObject_appends grant_all 33 [11; 22] [] []).
    + simpl. lia.
    + vm_compute. reflexivity.
    + intros _. split; [vm_compute|]; reflexivity.
  - apply (trackObject_appends grant_none 33 [11; 22] [None; None] []).
    + simpl. lia.
    + vm_compute. reflexivity.
    + discriminate.
Defined.

(** C6: after a [freeObjects] that has completed, the next [trackObject],
    its two [malloc] requests granted, builds a new tracker: capacity 128,
    [used] 1, the new handle in slot 0 and every other slot fresh. *)
Theorem track_after_release grant obj (w w' : World) :
  freeObjects w = Done w' ->
  grant (log w') 24 = true ->
  grant (log w' ++ [Malloc 24 true]) 1024 = true ->
  trackObject grant obj w' =
    Done {| _allocVector :=
              Some {| vector := Some (Some obj :: replicate 127 None);
                      used := 1;
                      size := 128 |};
            log := log w' ++ [Malloc 24 true; Malloc 1024 true] |}.
Proof.
  intros Hfree Hs Hv.
  rewrite trackObject_first; auto.
  exact (freeObjects_leaves_none w w' Hfree).
Qed.

Lemma track_after_release_witness :
  trackObject grant_all 44
    {| _allocVector := None;
       log := [Free_slot 11; Free_slot 22; Free_vector; Free_struct] |} =
    Done {| _allocVector :=
              Some {| vector := Some (Some 44 :: replicate 127 None);
                      used := 1;
                      size := 128 |};
            log := [Free_slot 11; Free_slot 22; Free_vector; Free_struct;
                    Malloc 24 true; Malloc 1024 true] |}.
Proof.
  apply (track_after_release grant_all 44 (tracker [11; 22] [None] [])
           {| _allocVector := None;
              log := [Free_slot 11; Free_slot 22; Free_vector; Free_struct] |});
    reflexivity.
Defined.

(** ** The invariant [0 <= used <= size] *)

Lemma trackObject_used_within_size grant obj w w' :
  used_within_size w ->
  trackObject grant obj w = Done w' ->
  used_within_size w'.
Proof.
  intros Hinv. unfold trackObject.
  destruct (needs_init w) eqn:Hinit.
  - unfold initAllocVector.
    destruct (grant (log w) sizeof_AllocVector); [|discriminate].
    cbn [mbind outcome_bind]. unfold grow. cbn [_allocVector used size].
    change (size_t initialSize) with 128.
    change (size_t (initialSize * sizeof_ptr)) with 1024.
    cbn [Z.eqb mbind outcome_bind]. unfold append. cbn [_allocVector vector].
    destruct (grant _ 1024); cbn [malloc_array]; [|discriminate].
    change (slots_of 1024) with 128%nat.
    rewrite length_replicate. cbn [used size log Z.to_nat Nat.ltb Nat.leb].
    intros [= <-]. unfold used_within_size. cbn [_allocVector used size].
    vm_compute. split; discriminate.
  - unfold needs_init in Hinit. unfold used_within_size in Hinv.
    destruct (_allocVector w) as [av|] eqn:Hav; [|discriminate].
    destruct (vector av) as [l|] eqn:Hl; [|discriminate].
    cbn [mbind outcome_bind]. unfold grow. rewrite Hav.
    destruct (Z.eqb_spec (used av) (size av)) as [Hfull|Hroom].
    + cbn [mbind outcome_bind]. unfold append. cbn [_allocVector vector used size log].
      destruct (grant _ _); cbn [realloc_array]; [|discriminate].
      rewrite Hl. cbn [default]. rewrite length_resize.
      destruct (Nat.ltb_spec (Z.to_nat (used av))
                  (slots_of (size_t (size_t (size av * 2) * sizeof_ptr))))
        as [Hlt|_]; [|discriminate].
      intros [= <-]. unfold used_within_size. cbn [_allocVector used size].
      revert Hlt. unfold slots_of, size_t, sizeof_ptr, SIZE_MODULUS.
      change (2 ^ 64) with 18446744073709551616. intros Hlt.
      apply Z2Nat.inj_lt in Hlt; [|lia|].
      * revert Hlt. Z.div_mod_to_equations. lia.
      * apply Z.div_pos; [|lia]. apply Z.mod_pos_bound. lia.
    + cbn [mbind outcome_bind]. unfold append. rewrite Hav, Hl.
      destruct (Nat.ltb_spec (Z.to_nat (used av)) (length l)) as [_|_]; [|discriminate].
      intros [= <-]. unfold used_within_size. cbn [_allocVector used size].
      unfold size_t, SIZE_MODULUS.
      change (2 ^ 64) with 18446744073709551616.
      Z.div_mod_to_equations. lia.
Qed.

(** C8: [0 <= used <= size] holds at program start, is preserved by every
    call of [trackObject] and of [freeObjects] that completes, whatever the
    allocator answers, and so holds in every state a sequence of such
    calls reaches. *)
Theorem used_never_exceeds_size grant :
  used_within_size start /\
  (forall c w w',
     used_within_size w -> step grant c w = Done w' -> used_within_size w') /\
  (forall cs w, run grant cs start = Done w -> used_within_size w).
Proof.
  assert (Hstep : forall c w w',
            used_within_size w -> step grant c w = Done w' -> used_within_size w').
  { intros [obj|] w w' Hinv Hdone; simpl in Hdone.
    - exact (trackObject_used_within_size grant obj w w' Hinv Hdone).
    - unfold used_within_size.
      rewrite (freeObjects_leaves_none w w' Hdone). exact I. }
  split; [exact I|]. split; [exact Hstep|].
  assert (Hrun : forall cs w0 w,
            used_within_size w0 -> run grant cs w0 = Done w -> used_within_size w).
  { induction cs as [|c cs IH]; intros w0 w Hinv; simpl.
    - intros [= <-]. exact Hinv.
    - destruct (step grant c w0) as [w1|] eqn:Hc; cbn [mbind outcome_bind];
        [|discriminate].
      apply IH. exact (Hstep c w0 w1 Hinv Hc). }
  intros cs w. apply Hrun. exact I.
Qed.

Lemma used_never_exceeds_size_witness :
  used_within_size
    {| _allocVector :=
         Some {| vector := Some (Some 9 :: replicate 127 None); used := 1; size := 128 |};
       log := [Malloc 24 true; Malloc 1024 true; Free_slot 1; Free_slot 0;
               Free_vector; Free_struct; Malloc 24 true; Malloc 1024 true] |}.
Proof.
  apply (proj2 (proj2 (used_never_exceeds_size grant_all))
           [Release; Track 1; Track 0; Release; Release; Track 9]).
  vm_compute. reflexivity.
Defined.

(** ** The shape of reachable states *)

(** Every state a run reaches from program start is well formed: the
    theorems above, stated on [tracker hs rest lg], cover all of them. *)
Lemma reachable_well_formed grant cs w :
  run grant cs start = Done w -> well_formed w.
Proof. apply run_well_formed. left. reflexivity. Qed.

(** * Further properties of the tracker *)

(** ** The two ways a call on a tracker completes *)

Lemma trackObject_tracker_cases grant obj hs rest lg w' :
  (0 < length hs + length rest)%nat ->
  Z.of_nat (length hs + length rest) < SIZE_MODULUS ->
  trackObject grant obj (tracker hs rest lg) = Done w' ->
  (exists r rest', rest = r :: rest' /\ w' = tracker (hs ++ [obj]) rest' lg) \/
  (rest = [] /\
   16 * Z.of_nat (length hs) < SIZE_MODULUS /\
   grant lg (16 * Z.of_nat (length hs)) = true /\
   w' = tracker (hs ++ [obj]) (replicate (length hs - 1) None)
          (lg ++ [Realloc (16 * Z.of_nat (length hs)) true])).
Proof.
  intros Hpos Hbound Hdone.
  destruct rest as [|r rest]; cbn [length] in Hpos, Hbound.
  - right. rewrite Nat.add_0_r in Hpos, Hbound.
    destruct (trackObject_full_done grant obj hs lg w' Hpos Hbound Hdone)
      as [Hfit Hgrant].
    rewrite trackObject_full in Hdone by assumption.
    injection Hdone as <-. auto.
  - left. rewrite trackObject_room in Hdone by exact Hbound.
    injection Hdone as <-. eauto.
Qed.

Lemma doubling_log_succ g :
  doubling_log (S g) = doubling_log g ++ [Realloc (1024 * 2 ^ Z.of_nat (S g)) true].
Proof.
  unfold doubling_log. rewrite seq_S, fmap_app. reflexivity.
Qed.

Lemma pow2_succ g : 2 ^ Z.of_nat (S g) = 2 * 2 ^ Z.of_nat g.
Proof. rewrite Nat2Z.inj_succ. apply Z.pow_succ_r. lia. Qed.

Lemma pow2_pos g : 0 < 2 ^ Z.of_nat g.
Proof. apply Z.pow_pos_nonneg; lia. Qed.

Section Growth.

Variable grant : list event -> Z -> bool.

Lemma grown_well_formed base hs k g w :
  grown base hs k g w ->
  (0 < length hs + length (replicate k (@None Z)))%nat /\
  Z.of_nat (length hs + length (replicate k (@None Z))) < SIZE_MODULUS.
Proof.
  intros (_ & Hpos & Hsize & _ & Hfit).
  rewrite length_replicate. split; [lia|].
  unfold sizeof_ptr in Hfit. rewrite SIZE_MODULUS_eq in *. lia.
Qed.

Lemma trackObject_fresh_grown obj w w' :
  _allocVector w = None ->
  trackObject grant obj w = Done w' ->
  grown (log w) [obj] 127 0 w'.
Proof.
  intros Hnone Hdone.
  destruct (trackObject_none_done grant obj w w' Hnone Hdone) as (-> & _ & _).
  unfold grown. split; [reflexivity|]. split; [simpl; lia|].
  split; [reflexivity|]. split; [auto|]. vm_compute. reflexivity.
Qed.

Lemma trackObject_grown obj base hs k g w w' :
  grown base hs k g w ->
  trackObject grant obj w = Done w' ->
  exists k' g', grown base (hs ++ [obj]) k' g' w'.
Proof.
  intros Hgrown Hdone.
  destruct (grown_well_formed _ _ _ _ _ Hgrown) as [Hpos Hbound].
  destruct Hgrown as (-> & Hlen & Hsize & Hhalf & Hfit).
  destruct (trackObject_tracker_cases grant obj _ _ _ w' Hpos Hbound Hdone)
    as [(r & rest' & Hrest & ->)|(Hrest & Hfit' & _ & ->)].
  - destruct k as [|k]; [discriminate|]. injection Hrest as _ <-.
    exists k, g. unfold grown. rewrite length_app. cbn [length].
    split; [reflexivity|]. split; [lia|]. split; [rewrite <- Hsize; lia|].
    split; [|exact Hfit]. destruct Hhalf as [->|Hhalf]; [auto|right; lia].
  - destruct k as [|k]; [|discriminate].
    rewrite Nat.add_0_r in Hsize.
    exists (length hs - 1)%nat, (S g). unfold grown.
    rewrite length_app, doubling_log_succ, pow2_succ. cbn [length].
    pose proof (pow2_pos g) as Hp.
    split.
    { rewrite Hsize, <- !app_assoc. do 4 f_equal. simpl. do 2 f_equal. lia. }
    split; [lia|]. split; [lia|]. split; [right; lia|].
    unfold sizeof_ptr. rewrite SIZE_MODULUS_eq in *. lia.
Qed.

Lemma track_all_grown objs : forall base hs k g w w',
  grown base hs k g w ->
  track_all grant objs w = Done w' ->
  exists k' g', grown base (hs ++ objs) k' g' w'.
Proof.
  induction objs as [|obj objs IH]; intros base hs k g w w' Hgrown.
  - intros [= <-]. exists k, g. rewrite app_nil_r. exact Hgrown.
  - rewrite track_all_cons.
    destruct (trackObject grant obj w) as [w1|] eqn:Hone;
      cbn [mbind outcome_bind]; [|discriminate].
    destruct (trackObject_grown obj base hs k g w w1 Hgrown Hone)
      as (k1 & g1 & Hgrown1).
    intros Hrun. destruct (IH base (hs ++ [obj]) k1 g1 w1 w' Hgrown1 Hrun)
      as (k' & g' & Hgrown').
    exists k', g'. rewrite <- app_assoc in Hgrown'. exact Hgrown'.
Qed.

(** Every state a run reaches has no tracker or a grown one. *)
Lemma step_grown c w w' :
  (_allocVector w = None \/ exists base hs k g, grown base hs k g w) ->
  step grant c w = Done w' ->
  _allocVector w' = None \/ exists base hs k g, grown base hs k g w'.
Proof.
  intros Hinv Hdone. destruct c as [obj|]; simpl in Hdone.
  - right. destruct Hinv as [Hnone|(base & hs & k & g & Hgrown)].
    + eexists _, _, _, _. exact (trackObject_fresh_grown obj w w' Hnone Hdone).
    + destruct (trackObject_grown obj base hs k g w w' Hgrown Hdone)
        as (k' & g' & Hgrown').
      eexists _, _, _, _. exact Hgrown'.
  - left. exact (freeObjects_leaves_none w w' Hdone).
Qed.

Lemma run_grown cs : forall w w',
  (_allocVector w = None \/ exists base hs k g, grown base hs k g w) ->
  run grant cs w = Done w' ->
  _allocVector w' = None \/ exists base hs k g, grown base hs k g w'.
Proof.
  induction cs as [|c cs IH]; intros w w' Hinv; simpl.
  - intros [= <-]. exact Hinv.
  - destruct (step grant c w) as [w1|] eqn:Hstep;
      cbn [mbind outcome_bind]; [|discriminate].
    apply IH. exact (step_grown c w w1 Hinv Hstep).
Qed.

End Growth.

(** ** Shape and capacity of reachable states *)

(** X2: in every reachable state the capacity is 128 doubled some number
    of times, it is 128 or less than twice the number of handles held, and
    the byte size of the array fits [size_t]. *)
Theorem reachable_capacity grant cs w av :
  run grant cs start = Done w ->
  _allocVector w = Some av ->
  (exists g : nat, size av = 128 * 2 ^ Z.of_nat g) /\
  (size av = 128 \/ size av < 2 * used av) /\
  size av * sizeof_ptr < SIZE_MODULUS.
Proof.
  intros Hrun Hav.
  destruct (run_grown grant cs start w (or_introl eq_refl) Hrun)
    as [Hnone|(base & hs & k & g & -> & Hpos & Hsize & Hhalf & Hfit)].
  - rewrite Hnone in Hav. discriminate.
  - injection Hav as <-. cbn [used size]. rewrite length_replicate, Hsize.
    split; [exists g; reflexivity|]. split; [|exact Hfit].
    destruct Hhalf as [->|Hhalf]; [left; reflexivity|right; exact Hhalf].
Qed.

Lemma reachable_capacity_witness :
  (exists g : nat, 256 = 128 * 2 ^ Z.of_nat g) /\
  (256 = 128 \/ 256 < 2 * 129) /\
  256 * sizeof_ptr < SIZE_MODULUS.
Proof.
  apply (reachable_capacity grant_all (Track <$> replicate 129 7)
           {| _allocVector :=
                Some {| vector := Some ((Some <$> replicate 129 7) ++ replicate 127 None);
                        used := 129; size := 256 |};
              log := [Malloc 24 true; Malloc 1024 true; Realloc 2048 true] |}
           {| vector := Some ((Some <$> replicate 129 7) ++ replicate 127 None);
              used := 129; size := 256 |}).
  - vm_compute. reflexivity.
  - reflexivity.
Defined.

(** X3: the allocator calls of registering N >= 1 handles from a state
    without tracker are the two [malloc]s of [initAllocVector] followed by
    [g] calls of [realloc], for 2048, 4096, ... bytes, where [g] is the
    least number of doublings of 128 that makes room for N: all requests
    were granted, the capacity is [128 * 2^g], and nothing else is
    allocated. *)
Theorem tracking_allocations grant (hs : list Z) (w0 w1 : World) :
  _allocVector w0 = None ->
  hs <> [] ->
  track_all grant hs w0 = Done w1 ->
  exists g : nat,
    log w1 = log w0 ++ [Malloc 24 true; Malloc 1024 true] ++ doubling_log g /\
    (exists av, _allocVector w1 = Some av /\ size av = 128 * 2 ^ Z.of_nat g) /\
    Z.of_nat (length hs) <= 128 * 2 ^ Z.of_nat g /\
    (g = 0%nat \/ 128 * 2 ^ Z.of_nat g < 2 * Z.of_nat (length hs)).
Proof.
  intros Hnone Hne. destruct hs as [|h hs]; [contradiction|].
  rewrite track_all_cons.
  destruct (trackObject grant h w0) as [wa|] eqn:Hone;
    cbn [mbind outcome_bind]; [|discriminate].
  intros Hrun.
  pose proof (trackObject_fresh_grown grant h w0 wa Hnone Hone) as Hgrown.
  destruct (track_all_grown grant hs (log w0) [h] 127 0 wa w1 Hgrown Hrun)
    as (k & g & -> & Hpos & Hsize & Hhalf & Hfit).
  exists g. cbn [log _allocVector tracker]. split; [reflexivity|].
  split.
  - eexists. split; [reflexivity|]. cbn [size].
    rewrite length_replicate. exact Hsize.
  - cbn [app length] in *. split; [lia|exact Hhalf].
Qed.

Lemma tracking_allocations_witness :
  exists g : nat,
    [Malloc 24 true; Malloc 1024 true; Realloc 2048 true; Realloc 4096 true] =
      log start ++ [Malloc 24 true; Malloc 1024 true] ++ doubling_log g /\
    (exists av,
       Some {| vector := Some ((Some <$> replicate 300 7) ++ replicate 212 None);
               used := 300; size := 512 |} = Some av /\
       size av = 128 * 2 ^ Z.of_nat g) /\
    Z.of_nat (length (replicate 300 7)) <= 128 * 2 ^ Z.of_nat g /\
    (g = 0%nat \/ 128 * 2 ^ Z.of_nat g < 2 * Z.of_nat (length (replicate 300 7))).
Proof.
  apply (tracking_allocations grant_all (replicate 300 7) start
           {| _allocVector :=
                Some {| vector := Some ((Some <$> replicate 300 7) ++ replicate 212 None);
                        used := 300; size := 512 |};
              log := [Malloc 24 true; Malloc 1024 true; Realloc 2048 true;
                      Realloc 4096 true] |}).
  - reflexivity.
  - discriminate.
  - vm_compute. reflexivity.
Defined.

(** ** Conservation of handles *)

Lemma omap_id_Some (hs : list Z) : omap id (Some <$> hs) = hs.
Proof. induction hs as [|h hs IH]; simpl; [reflexivity|]. f_equal. exact IH. Qed.

Lemma held_tracker hs rest lg : held (tracker hs rest lg) = hs.
Proof.
  unfold held, tracker. cbn [_allocVector vector used].
  rewrite Nat2Z.id, take_app_length' by (rewrite length_fmap; reflexivity).
  apply omap_id_Some.
Qed.

Lemma held_none w : _allocVector w = None -> held w = [].
Proof. intros H. unfold held. rewrite H. reflexivity. Qed.

Lemma step_conserves grant c w w' :
  well_formed w ->
  step grant c w = Done w' ->
  released (log w') ++ held w' = released (log w) ++ held w ++ tracked_of [c].
Proof.
  intros Hwf Hdone. destruct c as [obj|]; simpl in Hdone.
  - destruct Hwf as [Hnone|(hs & rest & lg & -> & Hpos & Hbound)].
    + destruct (trackObject_none_done grant obj w w' Hnone Hdone) as (-> & _ & _).
      rewrite held_tracker, held_none by exact Hnone. cbn [log tracker].
      rewrite released_app. cbn. rewrite app_nil_r. reflexivity.
    + destruct (trackObject_tracker_done grant obj hs rest lg w' Hpos Hbound Hdone)
        as (rest' & added & -> & Hrel & _).
      rewrite !held_tracker. cbn [log tracker].
      rewrite released_app, Hrel, app_nil_r. reflexivity.
  - destruct Hwf as [Hnone|(hs & rest & lg & -> & Hpos & Hbound)].
    + rewrite freeObjects_none in Hdone by exact Hnone. injection Hdone as <-.
      cbn. rewrite app_nil_r. reflexivity.
    + destruct (freeObjects_tracker_done hs rest lg w' Hdone) as [_ ->].
      rewrite held_tracker, held_none by reflexivity. cbn [log tracker].
      rewrite released_app, released_frees. cbn. rewrite !app_nil_r. reflexivity.
Qed.

Lemma run_conserves grant cs : forall w w',
  well_formed w ->
  run grant cs w = Done w' ->
  released (log w') ++ held w' = released (log w) ++ held w ++ tracked_of cs.
Proof.
  induction cs as [|c cs IH]; intros w w' Hwf; simpl.
  - intros [= <-]. rewrite app_nil_r. reflexivity.
  - destruct (step grant c w) as [w1|] eqn:Hstep;
      cbn [mbind outcome_bind]; [|discriminate].
    intros Hrun.
    rewrite (IH w1 w' (step_well_formed grant c w w1 Hwf Hstep) Hrun).
    rewrite app_assoc, (step_conserves grant c w w1 Hwf Hstep), <- !app_assoc.
    do 2 f_equal. destruct c; reflexivity.
Qed.

(** X4: for every sequence of calls from program start that completes,
    in whatever order [trackObject] and [freeObjects] alternate: the
    handles handed to [free] so far, followed by the handles the tracker
    still holds, are exactly the handles registered, in registration
    order.  None is lost, none is freed twice for one registration, none
    is freed that was not registered. *)
Theorem handles_conserved grant cs w :
  run grant cs start = Done w ->
  released (log w) ++ held w = tracked_of cs.
Proof.
  intros Hrun.
  exact (run_conserves grant cs start w (or_introl eq_refl) Hrun).
Qed.

Lemma handles_conserved_witness :
  released [Malloc 24 true; Malloc 1024 true; Free_slot 1; Free_slot 2;
            Free_vector; Free_struct; Malloc 24 true; Malloc 1024 true] ++
  held {| _allocVector :=
            Some {| vector := Some (Some 3 :: replicate 127 None);
                    used := 1; size := 128 |};
          log := [Malloc 24 true; Malloc 1024 true; Free_slot 1; Free_slot 2;
                  Free_vector; Free_struct; Malloc 24 true; Malloc 1024 true] |} =
  tracked_of [Release; Track 1; Track 2; Release; Release; Track 3].
Proof.
  apply (handles_conserved grant_all
           [Release; Track 1; Track 2; Release; Release; Track 3]
           {| _allocVector :=
                Some {| vector := Some (Some 3 :: replicate 127 None);
                        used := 1; size := 128 |};
              log := [Malloc 24 true; Malloc 1024 true; Free_slot 1; Free_slot 2;
                      Free_vector; Free_struct; Malloc 24 true; Malloc 1024 true] |}).
  vm_compute. reflexivity.
Defined.

(** ** What the slots hold *)

Lemma step_held grant c w w' :
  well_formed w ->
  step grant c w = Done w' ->
  held w' = match c with Track obj => held w ++ [obj] | Release => [] end.
Proof.
  intros Hwf Hdone. destruct c as [obj|]; simpl in Hdone.
  - destruct Hwf as [Hnone|(hs & rest & lg & -> & Hpos & Hbound)].
    + destruct (trackObject_none_done grant obj w w' Hnone Hdone) as (-> & _ & _).
      rewrite held_tracker, held_none by exact Hnone. reflexivity.
    + destruct (trackObject_tracker_done grant obj hs rest lg w' Hpos Hbound Hdone)
        as (rest' & added & -> & _ & _).
      rewrite !held_tracker. reflexivity.
  - apply held_none. exact (freeObjects_leaves_none w w' Hdone).
Qed.

Lemma run_held grant cs : forall w w',
  well_formed w ->
  run grant cs w = Done w' ->
  held w' = foldl (fun acc c => match c with
                                | Track obj => acc ++ [obj]
                                | Release => []
                                end) (held w) cs.
Proof.
  induction cs as [|c cs IH]; intros w w' Hwf; cbn [run foldl].
  - intros [= <-]. reflexivity.
  - destruct (step grant c w) as [w1|] eqn:Hstep;
      cbn [mbind outcome_bind]; [|discriminate].
    intros Hrun.
    rewrite (IH w1 w' (step_well_formed grant c w w1 Hwf Hstep) Hrun).
    rewrite (step_held grant c w w1 Hwf Hstep). reflexivity.
Qed.

(** X1: in every state a sequence of calls [cs] reaches from program
    start, whatever the allocator answered, a tracker that exists has a
    non-null array of exactly [size] slots; its first [used] slots hold the
    handles registered since the last [freeObjects] of [cs], in
    registration order, the other slots have never been written, and
    [used] is at least 1. *)
Theorem reachable_tracker_shape grant cs w av :
  run grant cs start = Done w ->
  _allocVector w = Some av ->
  exists k : nat,
    vector av = Some ((Some <$> pending cs) ++ replicate k None) /\
    used av = Z.of_nat (length (pending cs)) /\
    size av = Z.of_nat (length (pending cs) + k) /\
    1 <= used av.
Proof.
  intros Hrun Hav.
  pose proof (run_held grant cs start w (or_introl eq_refl) Hrun) as Hheld.
  change (held start) with (@nil Z) in Hheld. fold (pending cs) in Hheld.
  destruct (run_grown grant cs start w (or_introl eq_refl) Hrun)
    as [Hnone|(base & hs & k & g & -> & Hpos & _)].
  - rewrite Hnone in Hav. discriminate.
  - rewrite held_tracker in Hheld. subst hs.
    injection Hav as <-. exists k. cbn [vector used size].
    rewrite length_replicate. repeat split; lia.
Qed.

Lemma reachable_tracker_shape_witness :
  exists k : nat,
    Some ([Some 7; Some 8] ++ replicate 126 None) =
      Some ((Some <$> pending [Track 5; Release; Track 7; Track 8]) ++
            replicate k None) /\
    2 = Z.of_nat (length (pending [Track 5; Release; Track 7; Track 8])) /\
    128 = Z.of_nat (length (pending [Track 5; Release; Track 7; Track 8]) + k) /\
    1 <= 2.
Proof.
  apply (reachable_tracker_shape grant_all [Track 5; Release; Track 7; Track 8]
           {| _allocVector :=
                Some {| vector := Some ([Some 7; Some 8] ++ replicate 126 None);
                        used := 2; size := 128 |};
              log := [Malloc 24 true; Malloc 1024 true; Free_slot 5; Free_vector;
                      Free_struct; Malloc 24 true; Malloc 1024 true] |}
           {| vector := Some ([Some 7; Some 8] ++ replicate 126 None);
              used := 2; size := 128 |}).
  - vm_compute. reflexivity.
  - reflexivity.
Defined.

(** ** The limit of the loop counter *)

(** X5: in a reachable state, a [freeObjects] that completes found at most
    [INT_MAX] handles in the tracker: with more, the [int] counter of the
    loop, compared against the [size_t] field [used], overflows before the
    loop ends and the call has no defined result. *)
Theorem completed_release_within_INT_MAX grant cs w w' av :
  run grant cs start = Done w ->
  freeObjects w = Done w' ->
  _allocVector w = Some av ->
  used av <= INT_MAX.
Proof.
  intros Hrun Hfree Hav.
  destruct (reachable_well_formed grant cs w Hrun)
    as [Hnone|(hs & rest & lg & -> & _ & _)].
  - rewrite Hnone in Hav. discriminate.
  - injection Hav as <-. cbn [used].
    apply (freeObjects_tracker_done hs rest lg w' Hfree).
Qed.

Lemma completed_release_within_INT_MAX_witness : 2 <= INT_MAX.
Proof.
  apply (completed_release_within_INT_MAX grant_all [Track 7; Track 8]
           (tracker [7; 8] (replicate 126 None) [Malloc 24 true; Malloc 1024 true])
           {| _allocVector := None;
              log := [Malloc 24 true; Malloc 1024 true; Free_slot 7; Free_slot 8;
                      Free_vector; Free_struct] |}
           {| vector := Some ([Some 7; Some 8] ++ replicate 126 None);
              used := 2; size := 128 |}).
  - vm_compute. reflexivity.
  - vm_compute. reflexivity.
  - reflexivity.
Defined.

(** ** [trackObject] does not look at the handles *)

Lemma forget_slot_fresh n : forget_slot <$> replicate n (@None Z) = replicate n None.
Proof. exact (fmap_replicate forget_slot n None). Qed.

Lemma forget_slot_resize n (l : list slot) :
  forget_slot <$> resize n None l = resize n None (forget_slot <$> l).
Proof. exact (fmap_resize forget_slot n None l). Qed.

Section Forget.

Variable grant : list event -> Z -> bool.

Lemma needs_init_forget w : needs_init (forget w) = needs_init w.
Proof.
  unfold needs_init, forget. cbn [_allocVector].
  destruct (_allocVector w) as [av|]; [|reflexivity].
  cbn [vector]. destruct (vector av); reflexivity.
Qed.

Lemma initAllocVector_forget w :
  initAllocVector grant (forget w) = outcome_map forget (initAllocVector grant w).
Proof.
  unfold initAllocVector. change (log (forget w)) with (log w).
  destruct (grant (log w) sizeof_AllocVector); [|reflexivity].
  destruct (grant _ _); cbn [outcome_map]; unfold forget, malloc_array;
    cbn [_allocVector log vector used size]; [|reflexivity].
  rewrite forget_slot_fresh. reflexivity.
Qed.

Lemma grow_forget w :
  grow grant (forget w) = outcome_map forget (grow grant w).
Proof.
  unfold grow. change (log (forget w)) with (log w).
  unfold forget at 1. cbn [_allocVector].
  destruct (_allocVector w) as [av|] eqn:Hav; [|reflexivity].
  cbn [used size vector].
  destruct (used av =? size av).
  - destruct (grant _ _); cbn [outcome_map]; unfold forget, realloc_array;
      cbn [_allocVector log vector used size]; [|reflexivity].
    destruct (vector av) as [l|]; cbn [default];
      rewrite forget_slot_resize; reflexivity.
  - cbn [outcome_map]. unfold forget. rewrite Hav. reflexivity.
Qed.

Lemma append_forget a w :
  append NULL (forget w) = outcome_map forget (append a w).
Proof.
  unfold append, forget at 1. cbn [_allocVector log].
  destruct (_allocVector w) as [av|]; [|reflexivity].
  cbn [vector used size]. destruct (vector av) as [l|]; [|reflexivity].
  rewrite length_fmap.
  destruct (Z.to_nat (used av) <? length l)%nat; [|reflexivity].
  cbn [outcome_map]. unfold forget. cbn [_allocVector log vector used size].
  rewrite list_fmap_insert. reflexivity.
Qed.

Lemma trackObject_forget a w :
  trackObject grant NULL (forget w) = outcome_map forget (trackObject grant a w).
Proof.
  unfold trackObject. rewrite needs_init_forget.
  assert (Hfirst : (if needs_init w then initAllocVector grant (forget w) else Done (forget w))
                   = outcome_map forget
                       (if needs_init w then initAllocVector grant w else Done w)).
  { destruct (needs_init w); [apply initAllocVector_forget|reflexivity]. }
  rewrite Hfirst.
  destruct (if needs_init w then initAllocVector grant w else Done w) as [w1|];
    cbn [outcome_map mbind outcome_bind]; [|reflexivity].
  rewrite grow_forget.
  destruct (grow grant w1) as [w2|]; cbn [outcome_map mbind outcome_bind];
    [|reflexivity].
  apply append_forget.
Qed.

Lemma track_all_forget hs : forall hs' w w',
  length hs = length hs' ->
  forget w = forget w' ->
  outcome_map forget (track_all grant hs w) =
  outcome_map forget (track_all grant hs' w').
Proof.
  induction hs as [|a hs IH]; intros [|b hs'] w w' Hlen Hsame;
    try discriminate Hlen.
  - cbn. f_equal. exact Hsame.
  - rewrite !track_all_cons.
    pose proof (trackObject_forget a w) as Ha.
    pose proof (trackObject_forget b w') as Hb.
    rewrite Hsame, Hb in Ha.
    destruct (trackObject grant a w) as [w1|], (trackObject grant b w') as [w1'|];
      cbn [outcome_map mbind outcome_bind] in *; try discriminate Ha;
      [|reflexivity].
    apply IH; [auto|congruence].
Qed.

End Forget.

(** X6: [trackObject] never inspects the handles.  Registering from the
    same state two lists of handles of equal length gives runs that are both
    undefined or both complete, and then agree on everything but the values
    in the slots: the same allocator calls, the same [used] and [size], the
    same slots written. *)
Theorem tracking_ignores_handle_values grant (hs hs' : list Z) (w : World) :
  length hs = length hs' ->
  outcome_map forget (track_all grant hs w) =
  outcome_map forget (track_all grant hs' w).
Proof.
  intros Hlen. apply track_all_forget; [exact Hlen|reflexivity].
Qed.

Lemma tracking_ignores_handle_values_witness :
  outcome_map forget (track_all (grant_up_to 1024) [1; 2; 3] start) =
  outcome_map forget (track_all (grant_up_to 1024) [0; 9; 9] start).
Proof.
  apply (tracking_ignores_handle_values (grant_up_to 1024) [1; 2; 3] [0; 9; 9] start).
  reflexivity.
Defined.

(** ** The tracker's own blocks *)

Lemma own_blocks_app lg1 lg2 :
  own_blocks (lg1 ++ lg2) = own_blocks lg1 + own_blocks lg2.
Proof.
  induction lg1 as [|e lg1 IH]; [reflexivity|].
  cbn [app own_blocks foldr]. fold (own_blocks (lg1 ++ lg2)) (own_blocks lg1).
  rewrite IH. destruct e as [bytes [|]|bytes granted|p| |]; lia.
Qed.

Lemma own_blocks_frees hs : own_blocks (Free_slot <$> hs) = 0.
Proof. induction hs as [|h hs IH]; [reflexivity|exact IH]. Qed.

Lemma none_refused_frees hs : none_refused (Free_slot <$> hs).
Proof. apply Forall_fmap, Forall_forall. intros h _. exact I. Qed.

Lemma step_balanced grant c w w' :
  well_formed w ->
  step grant c w = Done w' ->
  exists added,
    log w' = log w ++ added /\
    none_refused added /\
    own_blocks added =
      match _allocVector w, _allocVector w' with
      | None, Some _ => 2
      | Some _, None => -2
      | _, _ => 0
      end.
Proof.
  intros Hwf Hdone. destruct c as [obj|]; simpl in Hdone.
  - destruct Hwf as [Hnone|(hs & rest & lg & -> & Hpos & Hbound)].
    + destruct (trackObject_none_done grant obj w w' Hnone Hdone) as (-> & _ & _).
      exists [Malloc 24 true; Malloc 1024 true]. rewrite Hnone.
      split; [reflexivity|]. split; [|reflexivity].
      repeat constructor.
    + destruct (trackObject_tracker_cases grant obj hs rest lg w' Hpos Hbound Hdone)
        as [(r & rest' & _ & ->)|(_ & _ & _ & ->)].
      * exists []. cbn [log tracker _allocVector]. rewrite app_nil_r.
        split; [reflexivity|]. split; [constructor|reflexivity].
      * eexists [_]. cbn [log tracker _allocVector].
        split; [reflexivity|]. split; [|reflexivity].
        repeat constructor.
  - destruct Hwf as [Hnone|(hs & rest & lg & -> & Hpos & Hbound)].
    + rewrite freeObjects_none in Hdone by exact Hnone. injection Hdone as <-.
      exists []. rewrite app_nil_r, Hnone.
      split; [reflexivity|]. split; [constructor|reflexivity].
    + destruct (freeObjects_tracker_done hs rest lg w' Hdone) as [_ ->].
      exists ((Free_slot <$> hs) ++ [Free_vector; Free_struct]).
      cbn [log tracker _allocVector]. split; [reflexivity|]. split.
      * apply Forall_app. split; [apply none_refused_frees|repeat constructor].
      * rewrite own_blocks_app, own_blocks_frees. reflexivity.
Qed.

Lemma run_balanced grant cs : forall w w',
  well_formed w ->
  run grant cs w = Done w' ->
  exists added,
    log w' = log w ++ added /\
    none_refused added /\
    own_blocks added =
      (match _allocVector w' with None => 0 | Some _ => 2 end) -
      (match _allocVector w with None => 0 | Some _ => 2 end).
Proof.
  induction cs as [|c cs IH]; intros w w' Hwf; simpl.
  - intros [= <-]. exists []. rewrite app_nil_r.
    split; [reflexivity|]. split; [constructor|].
    destruct (_allocVector w); reflexivity.
  - destruct (step grant c w) as [w1|] eqn:Hstep;
      cbn [mbind outcome_bind]; [|discriminate].
    intros Hrun.
    destruct (step_balanced grant c w w1 Hwf Hstep) as (a1 & Hl1 & Hr1 & Hb1).
    destruct (IH w1 w' (step_well_formed grant c w w1 Hwf Hstep) Hrun)
      as (a2 & Hl2 & Hr2 & Hb2).
    exists (a1 ++ a2). rewrite Hl2, Hl1, <- app_assoc.
    split; [reflexivity|]. split; [apply Forall_app; auto|].
    rewrite own_blocks_app, Hb1, Hb2.
    destruct (_allocVector w), (_allocVector w1), (_allocVector w'); lia.
Qed.

(** X7: the tracker never leaks its own blocks.  In every completed run
    from program start no request in the log was refused, and the granted
    [malloc] calls outnumber the calls of [free] on the array and on the
    struct by exactly two while a tracker exists and by none when there is
    none: each completed [freeObjects] has freed both blocks of the tracker
    it found. *)
Theorem own_blocks_balanced grant cs w :
  run grant cs start = Done w ->
  none_refused (log w) /\
  own_blocks (log w) = match _allocVector w with None => 0 | Some _ => 2 end.
Proof.
  intros Hrun.
  destruct (run_balanced grant cs start w (or_introl eq_refl) Hrun)
    as (added & Hlog & Href & Hbal).
  cbn [log start app _allocVector] in Hlog, Hbal. rewrite Hlog.
  split; [exact Href|]. rewrite Hbal. lia.
Qed.

Lemma own_blocks_balanced_witness :
  none_refused [Malloc 24 true; Malloc 1024 true; Free_slot 1; Free_slot 2;
                Free_vector; Free_struct] /\
  own_blocks [Malloc 24 true; Malloc 1024 true; Free_slot 1; Free_slot 2;
              Free_vector; Free_struct] = 0.
Proof.
  apply (own_blocks_balanced grant_all [Track 1; Track 2; Release]
           {| _allocVector := None;
              log := [Malloc 24 true; Malloc 1024 true; Free_slot 1; Free_slot 2;
                      Free_vector; Free_struct] |}).
  vm_compute. reflexivity.
Defined.

(** ** Completion of registration *)



(** ** The order of the release loop *)

(** X9: on an active tracker holding [hs], whenever the first [k] passes
    of the release loop complete ([k] up to [used]), exactly the handles of
    slots [0 .. k-1] have been passed to [free], in slot order, and exactly
    those slots hold NULL; the whole loop is these [k] passes followed by
    the remaining ones.  After the loop the array is freed with the struct
    still in place, then the struct; a [freeObjects] that completes has
    made exactly these calls and left [_allocVector] NULL. *)
Theorem release_loop_order (hs : list Z) (rest : list slot) lg :
  let u := Z.of_nat (length hs) in
  let s := Z.of_nat (length hs + length rest) in
  let freed := {| _allocVector := None;
                  log := lg ++ (Free_slot <$> hs) ++ [Free_vector; Free_struct] |} in
  (forall k w', (k <= length hs)%nat ->
     free_slots k 0 (tracker hs rest lg) = Done w' ->
     w' = active (replicate k (Some NULL) ++ (Some <$> drop k hs) ++ rest) u s
            (lg ++ (Free_slot <$> take k hs))) /\
  (forall k, (k <= length hs)%nat ->
     free_slots (length hs) 0 (tracker hs rest lg) =
     (w' ← free_slots k 0 (tracker hs rest lg);
      free_slots (length hs - k) (Z.of_nat k) w')) /\
  release_vector
    (active (replicate (length hs) (Some NULL) ++ rest) u s
       (lg ++ (Free_slot <$> hs))) =
    Done {| _allocVector := Some {| vector := None; used := u; size := s |};
            log := lg ++ (Free_slot <$> hs) ++ [Free_vector] |} /\
  release_struct
    {| _allocVector := Some {| vector := None; used := u; size := s |};
       log := lg ++ (Free_slot <$> hs) ++ [Free_vector] |} = Done freed /\
  (forall w', freeObjects (tracker hs rest lg) = Done w' -> w' = freed).
Proof.
  intros u s freed. split; [|split; [|split; [|split]]].
  - intros k w' Hk Hdone.
    assert (Hshape : tracker hs rest lg =
                     active ((Some <$> take k hs) ++ (Some <$> drop k hs) ++ rest)
                       u s lg).
    { rewrite tracker_active, app_assoc, <- fmap_app, take_drop. reflexivity. }
    assert (Hlen : length (take k hs) = k) by (rewrite length_take; lia).
    rewrite Hshape in Hdone.
    destruct (Z_le_gt_dec (Z.of_nat k) INT_MAX) as [Hle|Hgt].
    + pose proof (free_slots_from (take k hs) [] ((Some <$> drop k hs) ++ rest)
                    u s lg) as Hloop.
      rewrite Hlen in Hloop. cbn [app length Nat.add] in Hloop.
      change (Z.of_nat 0) with 0 in Hloop.
      rewrite Hloop in Hdone by exact Hle. injection Hdone as <-. reflexivity.
    + pose proof (free_slots_overflow (take k hs) [] ((Some <$> drop k hs) ++ rest)
                    u s lg) as Hloop.
      rewrite Hlen in Hloop. cbn [app length Nat.add] in Hloop.
      change (Z.of_nat 0) with 0 in Hloop.
      rewrite Hloop in Hdone; [discriminate|]. rewrite INT_MAX_eq in *. lia.
  - intros k Hk.
    replace (length hs) with (k + (length hs - k))%nat at 1 by lia.
    rewrite free_slots_split, Z.add_0_l. reflexivity.
  - unfold release_vector, active. simpl. rewrite <- app_assoc. reflexivity.
  - unfold release_struct, freed. simpl. rewrite <- !app_assoc. reflexivity.
  - intros w' Hdone. apply (freeObjects_tracker_done _ _ _ _ Hdone).
Qed.

Lemma release_loop_order_witness :
  active [Some NULL; Some NULL; Some 33; None] 3 4 [Free_slot 11; Free_slot 22] =
    active (replicate 2 (Some NULL) ++ (Some <$> drop 2 [11; 22; 33]) ++ [None])
      3 4 ([] ++ (Free_slot <$> take 2 [11; 22; 33])) /\
  {| _allocVector := None;
     log := [Free_slot 11; Free_slot 22; Free_slot 33; Free_vector; Free_struct] |} =
    {| _allocVector := None;
       log := [] ++ (Free_slot <$> [11; 22; 33]) ++ [Free_vector; Free_struct] |}.
Proof.
  destruct (release_loop_order [11; 22; 33] [None] [])
    as (Hloop & _ & _ & _ & Hall).
  split.
  - apply (Hloop 2%nat); [cbn [length]; lia|reflexivity].
  - apply Hall. reflexivity.
Defined.

(** ** Beyond the range of the loop counter *)

(** More than [INT_MAX] handles can be registered, and are then all held;
    the release that follows overflows its counter. *)
Lemma overflow_after_tracking grant (hs : list Z) (w0 : World) :
  always_grants grant ->
  _allocVector w0 = None ->
  INT_MAX < Z.of_nat (length hs) <= 2 ^ 60 ->
  exists rest added,
    track_all grant hs w0 = Done (tracker hs rest (log w0 ++ added)) /\
    released added = [] /\
    free_slots (length hs) 0 (tracker hs rest (log w0 ++ added)) = Undefined /\
    freeObjects (tracker hs rest (log w0 ++ added)) = Undefined.
Proof.
  intros Hgrant Hnone [Hlow Hhigh].
  destruct (track_all_fresh grant hs w0 Hgrant Hnone)
    as (rest & added & Hrun & Hrel); [rewrite INT_MAX_eq in Hlow; lia|exact Hhigh|].
  exists rest, added. split; [exact Hrun|]. split; [exact Hrel|]. split.
  - pose proof (free_slots_overflow hs [] rest (Z.of_nat (length hs))
                  (Z.of_nat (length hs + length rest)) (log w0 ++ added)) as Hloop.
    cbn [length app Nat.add] in Hloop. change (Z.of_nat 0) with 0 in Hloop.
    rewrite tracker_active. apply Hloop. rewrite INT_MAX_eq in *. lia.
  - apply freeObjects_overflow. exact Hlow.
Qed.

Lemma many_handles_length n :
  length (Z.of_nat <$> seq 1 n) = n.
Proof. rewrite length_fmap. apply length_seq. Qed.

Lemma beyond_INT_MAX_in_range k :
  0 < k <= 2 ->
  INT_MAX < Z.of_nat (Z.to_nat (INT_MAX + k)) <= 2 ^ 60.
Proof.
  intros Hk. rewrite Z2Nat.id by (rewrite INT_MAX_eq; lia).
  rewrite INT_MAX_eq. lia.
Qed.

(** C1: the claim fails past the range of the counter.  Registering the
    [INT_MAX + 2] distinct handles [1, 2, ..., INT_MAX + 2] from program
    start completes, with every allocation granted, and the tracker holds
    them all with nothing released so far; the [freeObjects] that follows
    has no defined result, so it does not deliver "exactly the N registered
    handles, each once": its loop counts with an [int] up to a [size_t]. *)
Theorem release_past_INT_MAX_undefined :
  exists w1,
    track_all grant_all (Z.of_nat <$> seq 1 (Z.to_nat (INT_MAX + 2))) start = Done w1 /\
    held w1 = Z.of_nat <$> seq 1 (Z.to_nat (INT_MAX + 2)) /\
    released (log w1) = [] /\
    freeObjects w1 = Undefined.
Proof.
  destruct (overflow_after_tracking grant_all
              (Z.of_nat <$> seq 1 (Z.to_nat (INT_MAX + 2))) start)
    as (rest & added & Hrun & Hrel & _ & Hfree).
  - intros lg bytes. reflexivity.
  - reflexivity.
  - rewrite many_handles_length. apply beyond_INT_MAX_in_range. lia.
  - eexists. split; [exact Hrun|]. split; [apply held_tracker|].
    split; [exact Hrel|exact Hfree].
Qed.

(** C7: with [INT_MAX + 2] handles in the tracker the release does not go
    through the order the claim gives.  The loop over the slots has no
    defined result (its [int] counter overflows at [INT_MAX], before slot
    [INT_MAX + 1] is reached), and so neither has [freeObjects]: the steps
    that should come "only after all slots are processed" are never
    reached in defined behaviour. *)
Theorem release_loop_past_INT_MAX_undefined :
  exists rest lg,
    track_all grant_all (Z.of_nat <$> seq 1 (Z.to_nat (INT_MAX + 2))) start =
      Done (tracker (Z.of_nat <$> seq 1 (Z.to_nat (INT_MAX + 2))) rest lg) /\
    free_slots (Z.to_nat (INT_MAX + 2)) 0
      (tracker (Z.of_nat <$> seq 1 (Z.to_nat (INT_MAX + 2))) rest lg) = Undefined /\
    freeObjects (tracker (Z.of_nat <$> seq 1 (Z.to_nat (INT_MAX + 2))) rest lg) =
      Undefined.
Proof.
  destruct (overflow_after_tracking grant_all
              (Z.of_nat <$> seq 1 (Z.to_nat (INT_MAX + 2))) start)
    as (rest & added & Hrun & _ & Hloop & Hfree).
  - intros lg bytes. reflexivity.
  - reflexivity.
  - rewrite many_handles_length. apply beyond_INT_MAX_in_range. lia.
  - rewrite many_handles_length in Hloop.
    exists rest, (log start ++ added). auto.
Qed.

Lemma count_occ_distinct (p : Z) (hs : list Z) :
  NoDup hs -> p ∈ hs -> count_occ Z.eq_dec hs p = 1%nat.
Proof.
  intros Hnd Hin. apply NoDup_ListNoDup in Hnd.
  apply (proj1 (NoDup_count_occ' Z.eq_dec hs) Hnd).
  apply list_elem_of_In. exact Hin.
Qed.

Lemma many_handles_distinct n : NoDup (Z.of_nat <$> seq 1 n).
Proof. apply (NoDup_fmap_2 Z.of_nat), NoDup_seq. Qed.

Lemma many_handles_last n :
  (0 < n)%nat -> Z.of_nat n ∈ Z.of_nat <$> seq 1 n.
Proof.
  intros Hn. apply list_elem_of_fmap. exists n. split; [reflexivity|].
  apply elem_of_seq. lia.
Qed.

(** C9: the claim fails past the range of the counter.  The pointer
    [INT_MAX + 2] is registered exactly once, as the last of the
    [INT_MAX + 2] distinct handles [1, ..., INT_MAX + 2], and is held by the
    tracker; the next [freeObjects] has no defined result, so the pointer
    is not "released exactly once": the loop counter overflows before its
    slot is reached. *)
Theorem single_registration_past_INT_MAX_not_released :
  exists w1,
    track_all grant_all (Z.of_nat <$> seq 1 (Z.to_nat (INT_MAX + 2))) start = Done w1 /\
    count_occ Z.eq_dec (held w1) (INT_MAX + 2) = 1%nat /\
    freeObjects w1 = Undefined.
Proof.
  destruct (overflow_after_tracking grant_all
              (Z.of_nat <$> seq 1 (Z.to_nat (INT_MAX + 2))) start)
    as (rest & added & Hrun & _ & _ & Hfree).
  - intros lg bytes. reflexivity.
  - reflexivity.
  - rewrite many_handles_length. apply beyond_INT_MAX_in_range. lia.
  - eexists. split; [exact Hrun|]. split; [|exact Hfree].
    rewrite held_tracker. apply count_occ_distinct.
    + apply many_handles_distinct.
    + rewrite <- (Z2Nat.id (INT_MAX + 2)) at 1 by (rewrite INT_MAX_eq; lia).
      apply many_handles_last.
      apply Nat2Z.inj_lt. rewrite Z2Nat.id by (rewrite INT_MAX_eq; lia).
      rewrite INT_MAX_eq. lia.
Qed.

Lemma lookup_behind_handles (pre : list Z) (x : Z) (rest : list slot) (n : nat) :
  n = length pre ->
  ((Some <$> pre ++ [x]) ++ rest) !! n = Some (Some x).
Proof.
  intros ->. rewrite fmap_app, <- app_assoc, <- (length_fmap Some pre).
  apply list_lookup_middle. reflexivity.
Qed.

(** C10: the claim fails past the range of the counter.  A NULL
    registered after the [INT_MAX + 1] handles [1, ..., INT_MAX + 1] is
    stored in slot [INT_MAX + 1] and counted in [used], which is
    [INT_MAX + 2]; but the [freeObjects] that follows has no defined
    result: the loop counter overflows before that slot, and the stored
    NULL is not passed to [free]. *)
Theorem null_past_INT_MAX_not_released :
  exists l sz lg,
    track_all grant_all ((Z.of_nat <$> seq 1 (Z.to_nat (INT_MAX + 1))) ++ [NULL]) start =
      Done (active l (INT_MAX + 2) sz lg) /\
    l !! Z.to_nat (INT_MAX + 1) = Some (Some NULL) /\
    freeObjects (active l (INT_MAX + 2) sz lg) = Undefined.
Proof.
  assert (Hlen : Z.of_nat (length ((Z.of_nat <$> seq 1 (Z.to_nat (INT_MAX + 1))) ++ [NULL]))
                 = INT_MAX + 2).
  { rewrite length_app, many_handles_length. cbn [length].
    rewrite Nat2Z.inj_add, Z2Nat.id by (rewrite INT_MAX_eq; lia). lia. }
  destruct (overflow_after_tracking grant_all
              ((Z.of_nat <$> seq 1 (Z.to_nat (INT_MAX + 1))) ++ [NULL]) start)
    as (rest & added & Hrun & _ & _ & Hfree).
  - intros lg bytes. reflexivity.
  - reflexivity.
  - rewrite Hlen, INT_MAX_eq. lia.
  - rewrite tracker_active, Hlen in Hrun, Hfree.
    eexists _, _, _. split; [exact Hrun|]. split; [|exact Hfree].
    apply lookup_behind_handles. symmetry. apply many_handles_length.
Qed.
